(** * lattice: Z-order encoded multidimensional addresses

    A shallow embedding of [lattice.go] (package [lattice]) and the
    properties of its encoder, decoder, accessors, transformers and
    predicates.

    Conventions of the embedding.
    - Go's [int] and [uint64] values are integers of [Z]; a value converted
      or shifted at type [uint64] carries its wrap-around ([uint64]).  The
      package's [int] arithmetic is on bit offsets, indices and single-bit
      masks of at most 20 bits, far from the 64-bit limits; a caller's
      unvalidated [int] is only compared.  [/] and [%] truncate ([Z.quot],
      [Z.rem]); [>>] on [int] is arithmetic ([Z.shiftr]).
    - [Addr] is [[4]uint64]: a record of four words.  Indexing it with a
      computed index is bounds-checked by the Go runtime, as is indexing the
      [[12]int] coordinate buffer and any slice.
    - A panic is a value of [panic]: either one of the package's formatted
      messages, kept as the message's format arguments, or a run-time error
      of the Go runtime.  A function that may panic returns a [result]. *)

From Stdlib Require Import ZArith Lia Bool String DecimalString.
From stdpp Require Import base list.

Local Open Scope Z_scope.

(** ** Panics and results *)

Inductive panic : Type :=
  (** ["lattice: max %d dimensions supported"] *)
  | TooManyDimensions (max : Z)
  (** ["lattice: coord[%d]=%d out of range [0,%d]"] *)
  | CoordOutOfRange (i v max : Z)
  (** ["lattice: buf too small: need %d, got %d"] *)
  | BufTooSmall (need got : Z)
  (** ["lattice: dimension index %d out of range [0:%d]"] *)
  | DimIndexOutOfRange (dimIdx dims : Z)
  (** ["lattice: slice [%d:%d] out of range [0:%d]"] *)
  | SliceOutOfRange (fromAddr toAddr dims : Z)
  (** runtime error: index out of range [index] with length len *)
  | RuntimeIndex (index len : Z)
  (** runtime error: slice bounds out of range [:hi] with capacity cap *)
  | RuntimeSliceBounds (hi cap : Z).

(** [%d] *)
Definition fmt_d (z : Z) : string := NilZero.string_of_int (Z.to_int z).

(** The text of a panic: [fmt.Sprintf] of the package's format strings, and
    the Go runtime's texts. *)
Definition message (e : panic) : string :=
  match e with
  | TooManyDimensions max =>
      "lattice: max " ++ fmt_d max ++ " dimensions supported"
  | CoordOutOfRange i v max =>
      "lattice: coord[" ++ fmt_d i ++ "]=" ++ fmt_d v
        ++ " out of range [0," ++ fmt_d max ++ "]"
  | BufTooSmall need got =>
      "lattice: buf too small: need " ++ fmt_d need ++ ", got " ++ fmt_d got
  | DimIndexOutOfRange dimIdx dims =>
      "lattice: dimension index " ++ fmt_d dimIdx
        ++ " out of range [0:" ++ fmt_d dims ++ "]"
  | SliceOutOfRange fromAddr toAddr dims =>
      "lattice: slice [" ++ fmt_d fromAddr ++ ":" ++ fmt_d toAddr
        ++ "] out of range [0:" ++ fmt_d dims ++ "]"
  | RuntimeIndex index len =>
      "runtime error: index out of range [" ++ fmt_d index
        ++ "] with length " ++ fmt_d len
  | RuntimeSliceBounds hi cap =>
      "runtime error: slice bounds out of range [:" ++ fmt_d hi
        ++ "] with capacity " ++ fmt_d cap
  end%string.

Inductive result (A : Type) : Type :=
  | Ok (a : A)
  | Panic (e : panic).

Arguments Ok {A} a.
Arguments Panic {A} e.

Definition bind {A B : Type} (m : result A) (k : A -> result B) : result B :=
  match m with
  | Ok a => k a
  | Panic e => Panic e
  end.

Notation "'let*' x := m 'in' k" := (bind m (fun x => k))
  (at level 10, x name, m at level 200, k at level 200).

(** [for i := range n { body }] over a state [S]; a panic in the body ends
    the loop.  A non-positive [n] runs no iteration. *)
Fixpoint loop {S : Type} (n : nat) (i : Z) (body : Z -> S -> result S) (s : S)
  : result S :=
  match n with
  | O => Ok s
  | Datatypes.S n' => let* s' := body i s in loop n' (i + 1) body s'
  end.

Definition for_range {S : Type} (n : Z) (body : Z -> S -> result S) (s : S)
  : result S :=
  loop (Z.to_nat n) 0 body s.

(** [for i := range n { if !test(i) { return false } }; return true]. *)
Fixpoint all_loop (n : nat) (i : Z) (test : Z -> result bool) : result bool :=
  match n with
  | O => Ok true
  | Datatypes.S n' =>
      let* b := test i in
      if b then all_loop n' (i + 1) test else Ok false
  end.

Definition all_range (n : Z) (test : Z -> result bool) : result bool :=
  all_loop (Z.to_nat n) 0 test.

(** [no_result P r]: [r] is a panic, and one that satisfies [P];
    [ok_or Inv P r]: [r] is a value that satisfies [Inv], or a panic that
    satisfies [P]. *)
Definition no_result {A} (P : panic -> Prop) (r : result A) : Prop :=
  match r with Ok _ => False | Panic e => P e end.

Definition ok_or {A} (Inv : A -> Prop) (P : panic -> Prop) (r : result A)
  : Prop :=
  match r with Ok a => Inv a | Panic e => P e end.

(** ** Machine integers, arrays and slices *)

Definition uint64 (z : Z) : Z := z mod 2 ^ 64.

Definition len (l : list Z) : Z := Z.of_nat (length l).

(** [l[i]], bounds-checked. *)
Definition index (l : list Z) (i : Z) : result Z :=
  if (0 <=? i) && (i <? len l) then
    match l !! Z.to_nat i with
    | Some x => Ok x
    | None => Panic (RuntimeIndex i (len l))
    end
  else Panic (RuntimeIndex i (len l)).

(** [l[i] = v], bounds-checked. *)
Definition store (l : list Z) (i v : Z) : result (list Z) :=
  if (0 <=? i) && (i <? len l) then Ok (<[Z.to_nat i := v]> l)
  else Panic (RuntimeIndex i (len l)).

(** ** The address type *)

Module Lattice.

(** [type Addr [4]uint64] *)
Record Addr : Type := mkAddr { word0 : Z; word1 : Z; word2 : Z; word3 : Z }.

Definition BitsPerCoord : Z := 20.
Definition MaxDimensions : Z := 12.
Definition MaxCoordValue : Z := Z.shiftl 1 BitsPerCoord - 1.

(** [var addr Addr] *)
Definition zeroAddr : Addr := mkAddr 0 0 0 0.

(** The word at an index, [0] outside the array (only used under a bounds
    check or in statements). *)
Definition word (a : Addr) (k : Z) : Z :=
  match k with
  | 0 => word0 a
  | 1 => word1 a
  | 2 => word2 a
  | 3 => word3 a
  | _ => 0
  end.

Definition set_word (a : Addr) (k : Z) (v : Z) : Addr :=
  match k with
  | 0 => mkAddr v (word1 a) (word2 a) (word3 a)
  | 1 => mkAddr (word0 a) v (word2 a) (word3 a)
  | 2 => mkAddr (word0 a) (word1 a) v (word3 a)
  | 3 => mkAddr (word0 a) (word1 a) (word2 a) v
  | _ => a
  end.

(** [a[k]] and [a[k] = v], bounds-checked. *)
Definition Addr_get (a : Addr) (k : Z) : result Z :=
  if (0 <=? k) && (k <? 4) then Ok (word a k) else Panic (RuntimeIndex k 4).

Definition Addr_set (a : Addr) (k : Z) (v : Z) : result Addr :=
  if (0 <=? k) && (k <? 4) then Ok (set_word a k v)
  else Panic (RuntimeIndex k 4).

(** The words of an address all fit [uint64]. *)
Definition Addr_wf (a : Addr) : Prop :=
  forall k, 0 <= word a k < 2 ^ 64.

(** ** Encoder *)

(** [for i, v := range coords { if v < 0 || v > MaxCoordValue { panic } }] *)
Fixpoint validate (i : Z) (coords : list Z) : result unit :=
  match coords with
  | [] => Ok tt
  | v :: rest =>
      if (v <? 0) || (v >? MaxCoordValue)
      then Panic (CoordOutOfRange i v MaxCoordValue)
      else validate (i + 1) rest
  end.

(** The body of the two encoding loops. *)
Definition New_body (coords : list Z) (numDims bitPos dimIdx : Z) (addr : Addr)
  : result Addr :=
  let* c := index coords dimIdx in
  let bit := Z.land (Z.shiftr c bitPos) 1 in
  let encodedBitPos := 4 + bitPos * numDims + dimIdx in
  if bit =? 1 then
    let arrayIdx := Z.quot encodedBitPos 64 in
    let bitInWord := Z.rem encodedBitPos 64 in
    let* w := Addr_get addr arrayIdx in
    Addr_set addr arrayIdx (Z.lor w (uint64 (Z.shiftl 1 bitInWord)))
  else Ok addr.

Definition New (coords : list Z) : result Addr :=
  if len coords >? MaxDimensions then Panic (TooManyDimensions MaxDimensions)
  else
    let* _ := validate 0 coords in
    let addr := set_word zeroAddr 0 (uint64 (len coords)) in
    let numDims := len coords in
    for_range BitsPerCoord (fun bitPos addr =>
      for_range numDims (fun dimIdx addr =>
        New_body coords numDims bitPos dimIdx addr) addr) addr.

(** ** Decoder *)

Definition Dims (a : Addr) : Z := Z.land (word a 0) 15.

(** [var coords [MaxDimensions]int] *)
Definition zeroBuffer : list Z := replicate (Z.to_nat MaxDimensions) 0.

Definition Coords_body (a : Addr) (dims bitPos dimIdx : Z) (coords : list Z)
  : result (list Z) :=
  let encodedBitPos := 4 + bitPos * dims + dimIdx in
  let arrayIdx := Z.quot encodedBitPos 64 in
  let bitInWord := Z.rem encodedBitPos 64 in
  let* w := Addr_get a arrayIdx in
  if Z.land (Z.shiftr w bitInWord) 1 =? 1 then
    let* c := index coords dimIdx in
    store coords dimIdx (Z.lor c (Z.shiftl 1 bitPos))
  else Ok coords.

Definition Coords (a : Addr) : result (list Z * Z) :=
  let dims := Dims a in
  let* coords := for_range BitsPerCoord (fun bitPos coords =>
              for_range dims (fun dimIdx coords =>
                Coords_body a dims bitPos dimIdx coords) coords) zeroBuffer in
  Ok (coords, dims).

(** A [[]int] that is re-sliced: the elements from the slice's start up to
    its capacity, and its length.  ([New]'s variadic argument is only
    measured and read, so it is the list of its elements.) *)
Record IntSlice : Type := mkSlice { elems : list Z; slen : Z }.

Definition cap (s : IntSlice) : Z := len (elems s).

Definition IntSlice_wf (s : IntSlice) : Prop := 0 <= slen s <= cap s.

(** [make([]int, n)] *)
Definition make (n : Z) : list Z := replicate (Z.to_nat n) 0.

(** [s[:hi]] *)
Definition reslice (s : IntSlice) (hi : Z) : result IntSlice :=
  if (0 <=? hi) && (hi <=? cap s) then Ok (mkSlice (elems s) hi)
  else Panic (RuntimeSliceBounds hi (cap s)).

(** [s[i] = v], checked against the length. *)
Definition slice_store (s : IntSlice) (i v : Z) : result IntSlice :=
  if (0 <=? i) && (i <? slen s)
  then Ok (mkSlice (<[Z.to_nat i := v]> (elems s)) (slen s))
  else Panic (RuntimeIndex i (slen s)).

(** The elements a slice holds: the first [slen] of its backing store. *)
Definition contents (s : IntSlice) : list Z := take (Z.to_nat (slen s)) (elems s).

Definition CoordsSlice (a : Addr) (buf : IntSlice) : result IntSlice :=
  let* r := Coords a in
  let '(coords, dims) := r in
  if slen buf <? dims then Panic (BufTooSmall dims (slen buf))
  else
    let* buf := reslice buf dims in
    for_range dims (fun i buf =>
      let* c := index coords i in slice_store buf i c) buf.

(** ** Accessors, predicates and transformers *)

(** [copy(dst[at:], src)] *)
Definition copy_at (dst : list Z) (at_ : Z) (src : list Z) : list Z :=
  let room := (length dst - Z.to_nat at_)%nat in
  take (Z.to_nat at_) dst ++ take room src
    ++ drop (Z.to_nat at_ + length src)%nat dst.

Definition Append (a : Addr) (coords : list Z) : result Addr :=
  let* r := Coords a in
  let '(ac, dims) := r in
  let next := make (dims + len coords) in
  let* next := for_range dims (fun i next =>
                 let* c := index ac i in store next i c) next in
  New (copy_at next dims coords).

Definition At (a : Addr) (dimIdx : Z) : result Z :=
  let* r := Coords a in
  let '(ac, dims) := r in
  if (dimIdx <? 0) || (dimIdx >=? dims)
  then Panic (DimIndexOutOfRange dimIdx dims)
  else index ac dimIdx.

Definition Contains (a bAddr : Addr) : result bool :=
  let aDims := Dims a in
  let bDims := Dims bAddr in
  if aDims >? bDims then Ok false
  else
    let* ra := Coords a in
    let* rb := Coords bAddr in
    let aCoords := fst ra in
    let bCoords := fst rb in
    all_range aDims (fun i =>
      let* x := index aCoords i in
      let* y := index bCoords i in
      Ok (x =? y)).

Definition Equal (a bAddr : Addr) : bool :=
  (word0 a =? word0 bAddr) && (word1 a =? word1 bAddr)
  && (word2 a =? word2 bAddr) && (word3 a =? word3 bAddr).

(** [for index, ran := range ranges { ... }] of [InRange]; a range is the
    pair [(ran[0], ran[1])]. *)
Fixpoint InRange_loop (aCoords : list Z) (dims : Z) (idx : Z)
    (ranges : list (Z * Z)) : result bool :=
  match ranges with
  | [] => Ok true
  | ran :: rest =>
      if idx >=? dims then Ok true
      else
        let* below :=
          (if negb (fst ran =? -1)
           then let* c := index aCoords idx in Ok (c <? fst ran)
           else Ok false) in
        if below then Ok false
        else
          let* above :=
            (if negb (snd ran =? -1)
             then let* c := index aCoords idx in Ok (c >? snd ran)
             else Ok false) in
          if above then Ok false
          else InRange_loop aCoords dims (idx + 1) rest
  end.

Definition InRange (a : Addr) (ranges : list (Z * Z)) : result bool :=
  let* r := Coords a in
  let '(aCoords, dims) := r in
  InRange_loop aCoords dims 0 ranges.

Definition IsZero (a : Addr) : result bool :=
  let* r := Coords a in
  let '(coords, dims) := r in
  all_range dims (fun i => let* c := index coords i in Ok (c =? 0)).

Definition Slice (a : Addr) (fromAddr toAddr : Z) : result Addr :=
  let* r := Coords a in
  let '(aCoords, dims) := r in
  if (fromAddr <? 0) || (toAddr >? dims) || (fromAddr >? toAddr)
  then Panic (SliceOutOfRange fromAddr toAddr dims)
  else
    let coords := make (toAddr - fromAddr) in
    let* coords := for_range (len coords) (fun i coords =>
                     let* c := index aCoords (fromAddr + i) in
                     store coords i c) coords in
    New coords.

Definition With (a : Addr) (dimIdx value : Z) : result Addr :=
  let* r := Coords a in
  let '(aCoords, dims) := r in
  if (dimIdx <? 0) || (dimIdx >=? dims)
  then Panic (DimIndexOutOfRange dimIdx dims)
  else
    let coords := make dims in
    let* coords := for_range dims (fun i coords =>
                     let* c := index aCoords i in store coords i c) coords in
    let* coords := store coords dimIdx value in
    New coords.

(** [fmt.Sprintf("Addr%v", a.CoordsSlice(buf[:]))]: [%v] of a [[]int] is its
    elements in decimal, separated by spaces, in brackets. *)
Definition String (a : Addr) : result string :=
  let* s := CoordsSlice a (mkSlice zeroBuffer MaxDimensions) in
  Ok ("Addr[" ++ String.concat " " (map fmt_d (contents s)) ++ "]")%string.

End Lattice.

Import Lattice.

(** * Vocabulary of the statements *)

(** The bit of an address at an absolute bit offset. *)
Definition addr_bit (a : Addr) (e : Z) : bool :=
  Z.testbit (word a (e / 64)) (e mod 64).

(** Coordinate [i] of a sequence ([0] past its end). *)
Definition coord (coords : list Z) (i : Z) : Z := nth (Z.to_nat i) coords 0.

(** The bit layout of the encoding of [coords], restricted to the first [t]
    payload bits: offsets [0..3] hold the dimension count, offset
    [4 + p*d + i] holds bit [p] of coordinate [i]. *)
Definition layout_upto (coords : list Z) (t e : Z) : bool :=
  let d := len coords in
  if e <? 4 then Z.testbit d e
  else (e - 4 <? t) && Z.testbit (coord coords ((e - 4) mod d)) ((e - 4) / d).

Definition layout_bit (coords : list Z) (e : Z) : bool :=
  layout_upto coords (BitsPerCoord * len coords) e.

(** What the decoder has accumulated in bit [p] of buffer entry [i] once the
    first [t] payload bits of an address with [d] dimensions are read. *)
Definition decode_upto (a : Addr) (d t i p : Z) : bool :=
  (i <? d) && (p * d + i <? t) && addr_bit a (4 + p * d + i).

Definition decode_bit (a : Addr) (i p : Z) : bool :=
  (i <? Dims a) && (p <? BitsPerCoord) && addr_bit a (4 + p * Dims a + i).

(** A range [(mn, mx)] admits a coordinate: each bound holds unless it is
    the sentinel [-1]. *)
Definition admits (ran : Z * Z) (c : Z) : Prop :=
  (fst ran <> -1 -> fst ran <= c) /\ (snd ran <> -1 -> c <= snd ran).

(** [len(ranges)] *)
Definition len_ranges (ranges : list (Z * Z)) : Z := Z.of_nat (length ranges).

(** How a decode of an address with header [d] can abort: on word index 4
    of the four storage words, or on an index of 12 or more of the 12-entry
    coordinate buffer. *)
Definition decode_abort (d : Z) (e : panic) : Prop :=
  e = RuntimeIndex 4 4 \/ exists i, 12 <= i < d /\ e = RuntimeIndex i 12.

(** A coordinate the encoder accepts. *)
Definition valid_coord (v : Z) : Prop := 0 <= v <= MaxCoordValue.

(** * Proofs *)

(** ** The package's tests, on the model *)

Example TestNew_PanicMessage :
  New (make 13) = Panic (TooManyDimensions 12) /\
  New [0; MaxCoordValue + 1] = Panic (CoordOutOfRange 1 1048576 1048575) /\
  New [0; -5] = Panic (CoordOutOfRange 1 (-5) 1048575) /\
  message (TooManyDimensions 12) = "lattice: max 12 dimensions supported"%string /\
  message (CoordOutOfRange 1 1048576 1048575)
  = "lattice: coord[1]=1048576 out of range [0,1048575]"%string /\
  message (CoordOutOfRange 1 (-5) 1048575)
  = "lattice: coord[1]=-5 out of range [0,1048575]"%string.
Proof. repeat split; reflexivity. Qed.

Example TestCoords_RoundTrip :
  (let* a := New [500000; 123456; 999999] in Coords a)
  = Ok ([500000; 123456; 999999; 0; 0; 0; 0; 0; 0; 0; 0; 0], 3) /\
  (let* a := New [100000; 200000; 300000; 400000; 500000; 600000;
                  700000; 800000; 900000; 1000000; 1048575; 999999] in
   Coords a)
  = Ok ([100000; 200000; 300000; 400000; 500000; 600000;
         700000; 800000; 900000; 1000000; 1048575; 999999], 12) /\
  (let* a := New [0; MaxCoordValue; 1; MaxCoordValue - 1] in Coords a)
  = Ok ([0; 1048575; 1; 1048574; 0; 0; 0; 0; 0; 0; 0; 0], 4).
Proof. repeat split; vm_compute; reflexivity. Qed.

Example TestCoordsSlice_PanicMessage :
  (let* a := New [1; 2; 3] in CoordsSlice a (mkSlice (make 2) 2))
  = Panic (BufTooSmall 3 2) /\
  message (BufTooSmall 3 2) = "lattice: buf too small: need 3, got 2"%string.
Proof. split; reflexivity. Qed.

Example TestAt_PanicMessage :
  (let* a := New [1; 2; 3] in At a 5) = Panic (DimIndexOutOfRange 5 3) /\
  message (DimIndexOutOfRange 5 3)
  = "lattice: dimension index 5 out of range [0:3]"%string.
Proof. split; reflexivity. Qed.

Example TestSlice_PanicMessage :
  (let* a := New [1; 2; 3] in Slice a 1 5) = Panic (SliceOutOfRange 1 5 3) /\
  message (SliceOutOfRange 1 5 3)
  = "lattice: slice [1:5] out of range [0:3]"%string.
Proof. split; reflexivity. Qed.

Example TestContains_Basic :
  (let* a := New [1; 2] in let* b := New [1; 2; 3] in Contains a b) = Ok true /\
  (let* a := New [] in let* b := New [1; 2; 3] in Contains a b) = Ok true /\
  (let* a := New [1; 2; 3] in let* b := New [1; 2] in Contains a b) = Ok false /\
  (let* a := New [1; 2] in let* b := New [1; 3; 4] in Contains a b) = Ok false /\
  (let* a := New [2] in let* b := New [1; 2; 3] in Contains a b) = Ok false.
Proof. repeat split; reflexivity. Qed.

Example TestInRange_Basic :
  (let* a := New [10; 20; 30] in InRange a [(5, 15); (15, 25); (25, 35)])
  = Ok true /\
  (let* a := New [10; 20; 30] in InRange a [(5, 15); (25, 30); (25, 35)])
  = Ok false /\
  (let* a := New [10; 20; 30] in InRange a [(-1, -1); (-1, -1); (-1, -1)])
  = Ok true /\
  (let* a := New [10; 20; 30] in InRange a [(5, 15)]) = Ok true /\
  (let* a := New [10; 20; 30] in InRange a [(11, -1)]) = Ok false /\
  (let* a := New [10; 20] in InRange a [(5, 15); (15, 25); (25, 35)])
  = Ok true.
Proof. repeat split; reflexivity. Qed.

Example TestMethods_Transform :
  (let* a := New [1; 2; 3] in let* b := With a 1 99 in Coords b)
  = Ok ([1; 99; 3; 0; 0; 0; 0; 0; 0; 0; 0; 0], 3) /\
  (let* a := New [1; 2] in let* b := Append a [3] in Coords b)
  = Ok ([1; 2; 3; 0; 0; 0; 0; 0; 0; 0; 0; 0], 3) /\
  (let* a := New [1; 2; 3] in let* b := Slice a 0 2 in Coords b)
  = Ok ([1; 2; 0; 0; 0; 0; 0; 0; 0; 0; 0; 0], 2) /\
  (let* a := New (make 12) in Append a [1]) = Panic (TooManyDimensions 12).
Proof. repeat split; reflexivity. Qed.

Example TestAddr_String :
  (let* a := New [] in String a) = Ok "Addr[]"%string /\
  (let* a := New [1; 2; 3] in String a) = Ok "Addr[1 2 3]"%string /\
  (let* a := New [0; MaxCoordValue] in String a) = Ok "Addr[0 1048575]"%string.
Proof. repeat split; reflexivity. Qed.

(** ** Loops *)

Section Loops.
Context {S : Type}.

(** An invariant indexed by the loop counter is carried through a loop
    whose body never panics under it. *)
Lemma loop_inv (Inv : Z -> S -> Prop) (body : Z -> S -> result S) n i s :
  Inv i s ->
  (forall j t, i <= j < i + Z.of_nat n -> Inv j t ->
     exists t', body j t = Ok t' /\ Inv (j + 1) t') ->
  exists s', loop n i body s = Ok s' /\ Inv (i + Z.of_nat n) s'.
Proof.
  revert i s. induction n as [|n IH]; intros i s Hi Hstep.
  - exists s. split; [reflexivity|]. now replace (i + Z.of_nat 0) with i by lia.
  - destruct (Hstep i s) as (t & Ht & Hinv); [lia|assumption|].
    cbn [loop]. rewrite Ht. cbn [bind].
    destruct (IH (i + 1) t Hinv) as (s' & Hs' & Hfin).
    + intros j u Hj Hu. apply Hstep; [lia|assumption].
    + exists s'. split; [assumption|].
      now replace (i + Z.of_nat (Datatypes.S n)) with (i + 1 + Z.of_nat n) by lia.
Qed.

Lemma for_range_inv (Inv : Z -> S -> Prop) (body : Z -> S -> result S) n s :
  0 <= n ->
  Inv 0 s ->
  (forall j t, 0 <= j < n -> Inv j t ->
     exists t', body j t = Ok t' /\ Inv (j + 1) t') ->
  exists s', for_range n body s = Ok s' /\ Inv n s'.
Proof.
  intros Hn H0 Hstep. unfold for_range.
  destruct (loop_inv Inv body (Z.to_nat n) 0 s H0) as (s' & Hs' & Hfin).
  - intros j t Hj. apply Hstep. lia.
  - exists s'. split; [assumption|].
    now replace n with (0 + Z.of_nat (Z.to_nat n)) by lia.
Qed.

Lemma loop_ok_or (Inv : S -> Prop) (P : panic -> Prop)
    (body : Z -> S -> result S) n i s :
  Inv s ->
  (forall j t, i <= j < i + Z.of_nat n -> Inv t -> ok_or Inv P (body j t)) ->
  ok_or Inv P (loop n i body s).
Proof.
  revert i s. induction n as [|n IH]; intros i s Hs Hall; cbn [loop]; [exact Hs|].
  pose proof (Hall i s ltac:(lia) Hs) as Hb.
  destruct (body i s) as [t|e]; cbn [bind]; [|exact Hb].
  apply IH; [exact Hb|]. intros j u Hj. apply Hall. lia.
Qed.

(** A loop one of whose iterations panics in every state does not
    return. *)
Lemma loop_no_result (Inv : S -> Prop) (P : panic -> Prop)
    (body : Z -> S -> result S) n i s j :
  i <= j < i + Z.of_nat n ->
  Inv s ->
  (forall k t, i <= k < j -> Inv t -> ok_or Inv P (body k t)) ->
  (forall t, Inv t -> no_result P (body j t)) ->
  no_result P (loop n i body s).
Proof.
  revert i s. induction n as [|n IH]; intros i s Hj Hs Hbefore Hat; [lia|].
  cbn [loop]. destruct (Z.eq_dec i j) as [->|Hne].
  - pose proof (Hat s Hs) as Hp. destruct (body j s); cbn in *; tauto.
  - pose proof (Hbefore i s ltac:(lia) Hs) as Hb.
    destruct (body i s) as [t|e]; cbn [bind]; [|exact Hb].
    apply IH; [lia|exact Hb| |assumption]. intros k u Hk. apply Hbefore. lia.
Qed.
End Loops.

(** ** Bits *)

Lemma land_shiftr_1 w b :
  0 <= b -> (Z.land (Z.shiftr w b) 1 =? 1) = Z.testbit w b.
Proof.
  intros Hb. change 1 with (Z.ones 1) at 1. rewrite Z.land_ones by lia.
  change (2 ^ 1) with 2. rewrite <- Z.bit0_mod, Z.shiftr_spec by lia.
  rewrite Z.add_0_l. now destruct (Z.testbit w b).
Qed.

Lemma testbit_lor_bit c P p :
  0 <= P -> 0 <= p ->
  Z.testbit (Z.lor c (Z.shiftl 1 P)) p = Z.testbit c p || (p =? P).
Proof.
  intros HP Hp. rewrite Z.lor_spec, Z.shiftl_1_l, Z.pow2_bits_eqb by lia.
  now rewrite (Z.eqb_sym P p).
Qed.

Lemma uint64_bit b : 0 <= b < 64 -> uint64 (Z.shiftl 1 b) = Z.shiftl 1 b.
Proof.
  intros Hb. unfold uint64. rewrite Z.shiftl_1_l. apply Z.mod_small.
  split; [apply Z.pow_nonneg; lia|apply Z.pow_lt_mono_r; lia].
Qed.

Lemma testbit_small n k e : 0 <= n < 2 ^ k -> k <= e -> Z.testbit n e = false.
Proof.
  intros Hn He. destruct (Z.eq_dec n 0) as [->|Hz]; [apply Z.bits_0|].
  apply Z.bits_above_log2; [lia|].
  assert (Z.log2 n < k); [|lia]. apply Z.log2_lt_pow2; lia.
Qed.

Lemma testbit_15 n : 0 <= n -> Z.testbit 15 n = (n <? 4).
Proof.
  intros Hn. change 15 with (Z.ones 4). rewrite Z.testbit_ones by lia.
  destruct (Z.leb_spec 0 n); [|lia]. reflexivity.
Qed.

(** ** Arrays *)

Lemma index_ok l i :
  0 <= i < len l -> index l i = Ok (nth (Z.to_nat i) l 0).
Proof.
  intros Hi. unfold index, len in *.
  destruct (Z.leb_spec 0 i); [|lia]. destruct (Z.ltb_spec i (Z.of_nat (length l))); [|lia].
  cbn [andb]. rewrite nth_lookup.
  destruct (lookup_lt_is_Some_2 l (Z.to_nat i)) as [x ->]; [lia|]. reflexivity.
Qed.

Lemma index_panic l i :
  ~ (0 <= i < len l) -> index l i = Panic (RuntimeIndex i (len l)).
Proof.
  intros Hi. unfold index.
  destruct (Z.leb_spec 0 i); destruct (Z.ltb_spec i (len l)); cbn [andb];
    try reflexivity; lia.
Qed.

Lemma store_ok l i v :
  0 <= i < len l -> store l i v = Ok (<[Z.to_nat i := v]> l).
Proof.
  intros Hi. unfold store.
  destruct (Z.leb_spec 0 i); [|lia]. destruct (Z.ltb_spec i (len l)); [|lia].
  reflexivity.
Qed.

Lemma store_panic l i v :
  ~ (0 <= i < len l) -> store l i v = Panic (RuntimeIndex i (len l)).
Proof.
  intros Hi. unfold store.
  destruct (Z.leb_spec 0 i); destruct (Z.ltb_spec i (len l)); cbn [andb];
    try reflexivity; lia.
Qed.

Lemma nth_insert_Z (l : list Z) i j v :
  0 <= i < len l -> 0 <= j ->
  nth (Z.to_nat j) (<[Z.to_nat i := v]> l) 0
  = if j =? i then v else nth (Z.to_nat j) l 0.
Proof.
  intros Hi Hj. unfold len in Hi. rewrite !nth_lookup.
  destruct (Z.eqb_spec j i) as [->|Hne].
  - rewrite list_lookup_insert_eq by lia. reflexivity.
  - rewrite list_lookup_insert_ne by lia. reflexivity.
Qed.

Lemma len_insert (l : list Z) n v : len (<[n := v]> l) = len l.
Proof. unfold len. now rewrite length_insert. Qed.

(** ** Words and bit offsets of an address *)

Lemma word_set_word a k v k' :
  0 <= k < 4 -> 0 <= k' < 4 ->
  word (set_word a k v) k' = if k' =? k then v else word a k'.
Proof.
  intros Hk Hk'.
  assert (k = 0 \/ k = 1 \/ k = 2 \/ k = 3) as [->|[->|[->| ->]]] by lia;
    assert (k' = 0 \/ k' = 1 \/ k' = 2 \/ k' = 3) as [->|[->|[->| ->]]] by lia;
    reflexivity.
Qed.

Lemma Addr_get_ok a k : 0 <= k < 4 -> Addr_get a k = Ok (word a k).
Proof.
  intros Hk. unfold Addr_get.
  destruct (Z.leb_spec 0 k); [|lia]. destruct (Z.ltb_spec k 4); [|lia].
  reflexivity.
Qed.

Lemma Addr_get_panic a k : ~ (0 <= k < 4) -> Addr_get a k = Panic (RuntimeIndex k 4).
Proof.
  intros Hk. unfold Addr_get.
  destruct (Z.leb_spec 0 k); destruct (Z.ltb_spec k 4); cbn [andb];
    try reflexivity; lia.
Qed.

Lemma Addr_set_ok a k v : 0 <= k < 4 -> Addr_set a k v = Ok (set_word a k v).
Proof.
  intros Hk. unfold Addr_set.
  destruct (Z.leb_spec 0 k); [|lia]. destruct (Z.ltb_spec k 4); [|lia].
  reflexivity.
Qed.

(** Setting one bit of an address changes that bit and no other. *)
Lemma addr_bit_set a e e' :
  0 <= e < 256 -> 0 <= e' < 256 ->
  addr_bit
    (set_word a (e / 64) (Z.lor (word a (e / 64)) (Z.shiftl 1 (e mod 64)))) e'
  = addr_bit a e' || (e' =? e).
Proof.
  intros He He'. unfold addr_bit.
  assert (0 <= e / 64 < 4) by (split; [apply Z.div_pos|apply Z.div_lt_upper_bound]; lia).
  assert (0 <= e' / 64 < 4) by (split; [apply Z.div_pos|apply Z.div_lt_upper_bound]; lia).
  pose proof (Z.mod_pos_bound e 64 ltac:(lia)).
  pose proof (Z.mod_pos_bound e' 64 ltac:(lia)).
  pose proof (Z.div_mod e 64 ltac:(lia)).
  pose proof (Z.div_mod e' 64 ltac:(lia)).
  rewrite word_set_word by assumption.
  destruct (Z.eqb_spec (e' / 64) (e / 64)) as [Heq|Hne].
  - rewrite testbit_lor_bit by lia. rewrite Heq. f_equal.
    destruct (Z.eqb_spec (e' mod 64) (e mod 64)); destruct (Z.eqb_spec e' e);
      try reflexivity; exfalso; [lia|congruence].
  - destruct (Z.eqb_spec e' e) as [->|_]; [congruence|].
    now rewrite orb_false_r.
Qed.

(** ** The encoder writes the layout *)

Lemma linear_div_mod P I d :
  0 <= I < d -> (P * d + I) / d = P /\ (P * d + I) mod d = I.
Proof.
  intros HI. rewrite (Z.add_comm (P * d) I).
  rewrite Z.div_add, Z.mod_add by lia.
  rewrite Z.div_small, Z.mod_small by lia. lia.
Qed.

Lemma offset_bounds d P I :
  0 <= d <= 12 -> 0 <= P < 20 -> 0 <= I < d ->
  4 <= 4 + P * d + I <= 243.
Proof. intros Hd HP HI. nia. Qed.

Lemma New_body_step coords P I a :
  len coords <= 12 -> 0 <= P < 20 -> 0 <= I < len coords ->
  (forall e, 0 <= e < 256 ->
     addr_bit a e = layout_upto coords (P * len coords + I) e) ->
  exists a',
    New_body coords (len coords) P I a = Ok a' /\
    forall e, 0 <= e < 256 ->
      addr_bit a' e = layout_upto coords (P * len coords + I + 1) e.
Proof.
  intros Hd HP HI Hinv. unfold New_body.
  rewrite index_ok by lia. cbn [bind]. rewrite land_shiftr_1 by lia.
  pose proof (offset_bounds (len coords) P I ltac:(lia) HP HI) as Hoff.
  destruct (linear_div_mod P I (len coords) HI) as [Hdiv Hmod].
  set (e0 := 4 + P * len coords + I) in *.
  assert (He0 : e0 - 4 = P * len coords + I) by (unfold e0; lia).
  rewrite Z.quot_div_nonneg, Z.rem_mod_nonneg by lia.
  assert (0 <= e0 / 64 < 4)
    by (split; [apply Z.div_pos|apply Z.div_lt_upper_bound]; lia).
  pose proof (Z.mod_pos_bound e0 64 ltac:(lia)).
  fold (coord coords I).
  destruct (Z.testbit (coord coords I) P) eqn:Hbit.
  - rewrite Addr_get_ok by assumption. cbn [bind].
    rewrite Addr_set_ok, uint64_bit by lia.
    eexists. split; [reflexivity|]. intros e He.
    rewrite addr_bit_set by lia. rewrite Hinv by assumption.
    unfold layout_upto. destruct (Z.ltb_spec e 4).
    + destruct (Z.eqb_spec e e0); [lia|]. now rewrite orb_false_r.
    + destruct (Z.eqb_spec e e0) as [->|Hne].
      * rewrite He0, Hdiv, Hmod, Hbit.
        destruct (Z.ltb_spec (P * len coords + I) (P * len coords + I + 1)); [|lia].
        now rewrite orb_true_r.
      * rewrite orb_false_r. f_equal.
        destruct (Z.ltb_spec (e - 4) (P * len coords + I));
          destruct (Z.ltb_spec (e - 4) (P * len coords + I + 1));
          try reflexivity; lia.
  - exists a. split; [reflexivity|]. intros e He. rewrite Hinv by assumption.
    unfold layout_upto. destruct (Z.ltb_spec e 4); [reflexivity|].
    destruct (Z.eq_dec (e - 4) (P * len coords + I)) as [Heq|Hne].
    + rewrite Heq, Hdiv, Hmod, Hbit. now rewrite !andb_false_r.
    + f_equal.
      destruct (Z.ltb_spec (e - 4) (P * len coords + I));
        destruct (Z.ltb_spec (e - 4) (P * len coords + I + 1));
        try reflexivity; lia.
Qed.

Lemma validate_ok coords i :
  Forall valid_coord coords -> validate i coords = Ok tt.
Proof.
  intros Hall. revert i. induction Hall as [|v rest Hv _ IH]; intros i.
  - reflexivity.
  - cbn [validate]. unfold valid_coord in Hv.
    destruct (Z.ltb_spec v 0); [lia|].
    destruct (Z.gtb_spec v MaxCoordValue); [lia|]. apply IH.
Qed.

(** After validation, [New] returns the address whose bits are the layout. *)
Lemma New_layout coords :
  len coords <= MaxDimensions -> Forall valid_coord coords ->
  exists a, New coords = Ok a /\
    forall e, 0 <= e < 256 -> addr_bit a e = layout_bit coords e.
Proof.
  intros Hd Hall. unfold New, layout_bit, MaxDimensions in *.
  destruct (Z.gtb_spec (len coords) 12); [lia|].
  rewrite (validate_ok coords 0 Hall). cbn [bind].
  assert (Hlen : 0 <= len coords) by (unfold len; lia).
  apply (for_range_inv
           (fun P a => forall e, 0 <= e < 256 ->
              addr_bit a e = layout_upto coords (P * len coords) e)).
  - unfold BitsPerCoord. lia.
  - intros e He. unfold layout_upto, addr_bit.
    assert (Hw : uint64 (len coords) = len coords)
      by (unfold uint64; apply Z.mod_small; lia).
    rewrite Hw.
    assert (0 <= e / 64 < 4)
      by (split; [apply Z.div_pos|apply Z.div_lt_upper_bound]; lia).
    rewrite word_set_word by lia.
    destruct (Z.ltb_spec e 4).
    + rewrite Z.div_small, Z.mod_small by lia. reflexivity.
    + destruct (Z.ltb_spec (e - 4) (0 * len coords)); [lia|]. cbn [andb].
      destruct (Z.eqb_spec (e / 64) 0) as [Hz|Hnz].
      * apply (testbit_small _ 4); [lia|].
        assert (e mod 64 = e); [|lia].
        apply Z.mod_small. split; [lia|].
        destruct (Z.lt_ge_cases e 64); [assumption|].
        assert (1 <= e / 64) by (apply Z.div_le_lower_bound; lia). lia.
      * assert (e / 64 = 1 \/ e / 64 = 2 \/ e / 64 = 3) as [->|[->| ->]] by lia;
          apply Z.bits_0.
  - intros P a HP Hinv.
    destruct (for_range_inv
                (fun I a => forall e, 0 <= e < 256 ->
                   addr_bit a e = layout_upto coords (P * len coords + I) e)
                (fun dimIdx addr => New_body coords (len coords) P dimIdx addr)
                (len coords) a Hlen) as (a' & Ha' & Hfin).
    + intros e He. rewrite Z.add_0_r. now apply Hinv.
    + intros I b HI Hb.
      destruct (New_body_step coords P I b) as (b' & Hb' & Hstep);
        [lia|unfold BitsPerCoord in HP; lia|lia|assumption|].
      exists b'. split; [assumption|]. intros e He.
      rewrite Hstep by assumption. f_equal. lia.
    + exists a'. split; [assumption|]. intros e He.
      rewrite Hfin by assumption. f_equal. lia.
Qed.

(** ** The decoder reads the layout *)

Lemma Dims_range a : 0 <= Dims a <= 15.
Proof.
  unfold Dims.
  assert (Hmask : Z.land (word a 0) 15 = word a 0 mod 16)
    by (change 15 with (Z.ones 4); apply Z.land_ones; lia).
  rewrite Hmask.
  pose proof (Z.mod_pos_bound (word a 0) 16 ltac:(lia)). lia.
Qed.

Lemma linear_inj d p i P I :
  0 <= i < d -> 0 <= I < d -> p * d + i = P * d + I -> p = P /\ i = I.
Proof.
  intros Hi HI Heq.
  destruct (linear_div_mod p i d Hi) as [Hq Hr].
  destruct (linear_div_mod P I d HI) as [HQ HR].
  rewrite Heq in Hq, Hr. lia.
Qed.

Lemma decode_upto_next a d P I i p :
  0 <= I < d -> 0 <= i ->
  decode_upto a d (P * d + I + 1) i p
  = decode_upto a d (P * d + I) i p
    || ((i =? I) && (p =? P) && addr_bit a (4 + P * d + I)).
Proof.
  intros HI Hi. unfold decode_upto.
  destruct (Z.ltb_spec i d); cbn [andb].
  - destruct (Z.eqb_spec i I) as [->|Hne]; cbn [andb].
    + destruct (Z.eqb_spec p P) as [->|Hnp]; cbn [andb].
      * destruct (Z.ltb_spec (P * d + I) (P * d + I)); [lia|].
        destruct (Z.ltb_spec (P * d + I) (P * d + I + 1)); [|lia].
        reflexivity.
      * rewrite orb_false_r. f_equal.
        destruct (Z.ltb_spec (p * d + I) (P * d + I));
          destruct (Z.ltb_spec (p * d + I) (P * d + I + 1));
          try reflexivity; try lia.
        exfalso. apply Hnp. apply (linear_inj d p I P I); lia.
    + rewrite orb_false_r. f_equal.
      destruct (Z.ltb_spec (p * d + i) (P * d + I));
        destruct (Z.ltb_spec (p * d + i) (P * d + I + 1));
        try reflexivity; try lia.
      exfalso. apply Hne. apply (linear_inj d p i P I); lia.
  - destruct (Z.eqb_spec i I); [lia|]. reflexivity.
Qed.

Lemma Coords_body_step a P I buf :
  Dims a <= 12 -> 0 <= P < 20 -> 0 <= I < Dims a -> len buf = 12 ->
  (forall i p, 0 <= i < 12 -> 0 <= p ->
     Z.testbit (coord buf i) p = decode_upto a (Dims a) (P * Dims a + I) i p) ->
  exists buf',
    Coords_body a (Dims a) P I buf = Ok buf' /\ len buf' = 12 /\
    forall i p, 0 <= i < 12 -> 0 <= p ->
      Z.testbit (coord buf' i) p
      = decode_upto a (Dims a) (P * Dims a + I + 1) i p.
Proof.
  intros Hd HP HI Hlen Hinv. unfold Coords_body.
  pose proof (offset_bounds (Dims a) P I ltac:(lia) HP HI) as Hoff.
  set (e0 := 4 + P * Dims a + I) in *.
  rewrite Z.quot_div_nonneg, Z.rem_mod_nonneg by lia.
  assert (0 <= e0 / 64 < 4)
    by (split; [apply Z.div_pos|apply Z.div_lt_upper_bound]; lia).
  pose proof (Z.mod_pos_bound e0 64 ltac:(lia)).
  rewrite Addr_get_ok by assumption. cbn [bind].
  rewrite land_shiftr_1 by lia. fold (addr_bit a e0).
  destruct (addr_bit a e0) eqn:Hbit.
  - rewrite index_ok by lia. cbn [bind]. rewrite store_ok by lia.
    eexists. split; [reflexivity|]. split; [now rewrite len_insert|].
    intros i p Hi Hp. unfold coord. rewrite nth_insert_Z by lia.
    rewrite decode_upto_next by lia. fold e0. rewrite Hbit, andb_true_r.
    destruct (Z.eqb_spec i I) as [->|Hne]; cbn [andb].
    + rewrite testbit_lor_bit by lia. f_equal. now apply Hinv.
    + rewrite orb_false_r. now apply Hinv.
  - exists buf. split; [reflexivity|]. split; [assumption|].
    intros i p Hi Hp. rewrite decode_upto_next by lia. fold e0.
    rewrite Hbit, andb_false_r, orb_false_r. now apply Hinv.
Qed.

(** The decoder returns on every address whose header is at most 12; bit [p]
    of entry [i] of its buffer is payload bit [4 + p*d + i]. *)
Lemma Coords_decode a :
  Dims a <= MaxDimensions ->
  exists buf, Coords a = Ok (buf, Dims a) /\ len buf = 12 /\
    forall i p, 0 <= i < 12 -> 0 <= p ->
      Z.testbit (coord buf i) p = decode_bit a i p.
Proof.
  unfold MaxDimensions. intros Hd. pose proof (Dims_range a) as Hr.
  unfold Coords.
  destruct (for_range_inv
    (fun P buf => len buf = 12 /\ forall i p, 0 <= i < 12 -> 0 <= p ->
       Z.testbit (coord buf i) p = decode_upto a (Dims a) (P * Dims a) i p)
    (fun bitPos coords =>
       for_range (Dims a)
         (fun dimIdx coords => Coords_body a (Dims a) bitPos dimIdx coords)
         coords)
    BitsPerCoord zeroBuffer) as (buf & Hbuf & Hlen & Hfin).
  - unfold BitsPerCoord. lia.
  - split; [reflexivity|]. intros i p Hi Hp.
    unfold decode_upto.
    destruct (Z.ltb_spec (p * Dims a + i) (0 * Dims a)); [nia|].
    rewrite andb_false_r. cbn [andb].
    unfold coord, zeroBuffer. rewrite nth_lookup.
    destruct (replicate (Z.to_nat MaxDimensions) 0 !! Z.to_nat i) eqn:Hl.
    + apply lookup_replicate in Hl as [-> _]. apply Z.bits_0.
    + apply Z.bits_0.
  - intros P buf HP [Hlen Hinv].
    destruct (for_range_inv
      (fun I buf => len buf = 12 /\ forall i p, 0 <= i < 12 -> 0 <= p ->
         Z.testbit (coord buf i) p
         = decode_upto a (Dims a) (P * Dims a + I) i p)
      (fun dimIdx coords => Coords_body a (Dims a) P dimIdx coords)
      (Dims a) buf) as (buf' & Hbuf' & Hlen' & Hfin).
    + lia.
    + split; [assumption|]. intros i p Hi Hp. rewrite Z.add_0_r. now apply Hinv.
    + intros I b HI [Hbl Hb].
      destruct (Coords_body_step a P I b) as (b' & Hb' & Hbl' & Hstep);
        [lia|unfold BitsPerCoord in HP; lia|lia|assumption|assumption|].
      exists b'. split; [assumption|]. split; [assumption|].
      intros i p Hi Hp. rewrite Hstep by assumption. f_equal. lia.
    + exists buf'. split; [assumption|]. split; [assumption|].
      intros i p Hi Hp. rewrite Hfin by assumption. f_equal. lia.
  - exists buf. rewrite Hbuf. cbn [bind]. split; [reflexivity|].
    split; [assumption|]. intros i p Hi Hp. rewrite Hfin by assumption.
    unfold decode_upto, decode_bit, BitsPerCoord.
    destruct (Z.ltb_spec i (Dims a)); cbn [andb]; [|reflexivity].
    f_equal.
    destruct (Z.ltb_spec (p * Dims a + i) (20 * Dims a));
      destruct (Z.ltb_spec p 20); try reflexivity; nia.
Qed.

(** ** Decoding an encoded sequence *)

Lemma Dims_of_header a d :
  0 <= d < 16 ->
  (forall e, 0 <= e < 4 -> addr_bit a e = Z.testbit d e) ->
  Dims a = d.
Proof.
  intros Hd Hbits. unfold Dims. apply Z.bits_inj'. intros n Hn.
  rewrite Z.land_spec, testbit_15 by assumption.
  destruct (Z.ltb_spec n 4).
  - rewrite andb_true_r, <- Hbits by lia. unfold addr_bit.
    now rewrite Z.div_small, Z.mod_small by lia.
  - rewrite andb_false_r. symmetry. apply (testbit_small d 4); [|lia].
    change (2 ^ 4) with 16. lia.
Qed.

Lemma len_nonneg l : 0 <= len l.
Proof. unfold len. lia. Qed.

Lemma valid_coord_nth coords i :
  Forall valid_coord coords -> valid_coord (coord coords i).
Proof.
  intros Hall. unfold coord. rewrite nth_lookup.
  destruct (coords !! Z.to_nat i) as [v|] eqn:Hl; cbn.
  - now apply (Forall_lookup_1 _ _ _ _ Hall Hl).
  - unfold valid_coord, MaxCoordValue, BitsPerCoord.
    change (Z.shiftl 1 20 - 1) with 1048575. lia.
Qed.

Lemma take_prefix_eq (buf coords : list Z) :
  len coords <= len buf ->
  (forall i, 0 <= i < len coords -> coord buf i = coord coords i) ->
  take (length coords) buf = coords.
Proof.
  unfold len. intros Hlen Hall. apply list_eq. intros n.
  destruct (Nat.lt_ge_cases n (length coords)) as [Hlt|Hge].
  - rewrite lookup_take_lt by assumption.
    specialize (Hall (Z.of_nat n) ltac:(lia)). unfold coord in Hall.
    rewrite Nat2Z.id, !nth_lookup in Hall.
    destruct (lookup_lt_is_Some_2 buf n) as [x Hx]; [lia|].
    destruct (lookup_lt_is_Some_2 coords n) as [y Hy]; [lia|].
    rewrite Hx, Hy in *. cbn in Hall. now subst.
  - rewrite lookup_take_ge by assumption. symmetry. now apply lookup_ge_None_2.
Qed.

(** The header of an encoded sequence is its length. *)
Lemma layout_Dims coords a :
  len coords <= 12 ->
  (forall e, 0 <= e < 256 -> addr_bit a e = layout_bit coords e) ->
  Dims a = len coords.
Proof.
  intros Hd Hlay. pose proof (len_nonneg coords).
  apply Dims_of_header; [lia|]. intros e He.
  rewrite Hlay by lia. unfold layout_bit, layout_upto.
  destruct (Z.ltb_spec e 4); [reflexivity|lia].
Qed.

(** Decoding the layout of a valid sequence gives the sequence back. *)
Lemma layout_decode coords a i :
  len coords <= 12 -> Forall valid_coord coords ->
  (forall e, 0 <= e < 256 -> addr_bit a e = layout_bit coords e) ->
  0 <= i < len coords ->
  forall p, 0 <= p -> decode_bit a i p = Z.testbit (coord coords i) p.
Proof.
  intros Hd Hall Hlay Hi p Hp.
  unfold decode_bit. rewrite (layout_Dims coords a Hd Hlay).
  destruct (Z.ltb_spec i (len coords)); [|lia]. cbn [andb].
  unfold BitsPerCoord. destruct (Z.ltb_spec p 20); cbn [andb].
  - pose proof (offset_bounds (len coords) p i ltac:(lia) ltac:(lia) Hi).
    rewrite Hlay by lia. unfold layout_bit, layout_upto, BitsPerCoord.
    destruct (Z.ltb_spec (4 + p * len coords + i) 4); [lia|].
    replace (4 + p * len coords + i - 4) with (p * len coords + i) by lia.
    destruct (linear_div_mod p i (len coords) Hi) as [-> ->].
    destruct (Z.ltb_spec (p * len coords + i) (20 * len coords)); [|nia].
    reflexivity.
  - symmetry. apply (testbit_small _ 20); [|lia].
    pose proof (valid_coord_nth coords i Hall) as Hv.
    unfold valid_coord, MaxCoordValue, BitsPerCoord in Hv.
    change (Z.shiftl 1 20 - 1) with 1048575 in Hv.
    change (2 ^ 20) with 1048576. lia.
Qed.

(** Entries of the decode buffer at or past the dimension count are zero. *)
Lemma decode_tail_zero a buf i :
  (forall i p, 0 <= i < 12 -> 0 <= p ->
     Z.testbit (coord buf i) p = decode_bit a i p) ->
  len buf = 12 -> Dims a <= i -> coord buf i = 0.
Proof.
  intros Hbits Hlen Hi. pose proof (Dims_range a).
  destruct (Z.lt_ge_cases i 12) as [Hlt|Hge].
  - apply Z.bits_inj'. intros p Hp. rewrite Hbits by lia.
    unfold decode_bit. destruct (Z.ltb_spec i (Dims a)); [lia|].
    now rewrite Z.bits_0.
  - unfold coord. apply nth_overflow. unfold len in Hlen. lia.
Qed.

(** Encoding then decoding: the result of [New], its header, its decode
    buffer and the buffer's first entries. *)
Lemma New_roundtrip coords :
  len coords <= MaxDimensions -> Forall valid_coord coords ->
  exists a buf,
    New coords = Ok a /\ Dims a = len coords /\
    Coords a = Ok (buf, len coords) /\ len buf = 12 /\
    take (length coords) buf = coords /\
    (forall i, len coords <= i -> coord buf i = 0).
Proof.
  intros Hd Hall. destruct (New_layout coords Hd Hall) as (a & Ha & Hlay).
  unfold MaxDimensions in Hd.
  pose proof (layout_Dims coords a Hd Hlay) as HD.
  destruct (Coords_decode a) as (buf & Hbuf & Hlen & Hbits);
    [unfold MaxDimensions; lia|].
  exists a, buf. rewrite HD in Hbuf. repeat split; try assumption.
  - apply take_prefix_eq; [lia|]. intros i Hi.
    apply Z.bits_inj'. intros p Hp. rewrite Hbits by lia.
    now apply layout_decode.
  - intros i Hi. apply (decode_tail_zero a); [assumption|assumption|lia].
Qed.

(** ** Equality of addresses and of sequences *)

Lemma Equal_eq a b : Equal a b = true <-> a = b.
Proof.
  unfold Equal. destruct a as [a0 a1 a2 a3], b as [b0 b1 b2 b3]. cbn.
  rewrite !andb_true_iff, !Z.eqb_eq. split.
  - intros [[[-> ->] ->] ->]. reflexivity.
  - intros [= -> -> -> ->]. tauto.
Qed.

Lemma coords_ext (l1 l2 : list Z) :
  len l1 = len l2 ->
  (forall i, 0 <= i < len l1 -> coord l1 i = coord l2 i) ->
  l1 = l2.
Proof.
  intros Hlen Hall.
  rewrite <- (take_ge l1 (length l2)) by (unfold len in Hlen; lia).
  apply take_prefix_eq; [lia|]. intros i Hi. apply Hall. lia.
Qed.

(** ** The validation of the encoder *)

Lemma validate_spec coords : forall i,
  match validate i coords with
  | Ok _ => Forall valid_coord coords
  | Panic e =>
      exists j v, coords !! j = Some v /\ (v < 0 \/ v > MaxCoordValue) /\
        Forall valid_coord (take j coords) /\
        e = CoordOutOfRange (i + Z.of_nat j) v MaxCoordValue
  end.
Proof.
  induction coords as [|v rest IH]; intros i; cbn [validate].
  - constructor.
  - destruct (Z.ltb_spec v 0); cbn [orb].
    + exists 0%nat, v. rewrite Z.add_0_r. cbn. repeat split; auto.
    + destruct (Z.gtb_spec v MaxCoordValue).
      * exists 0%nat, v. rewrite Z.add_0_r. cbn. repeat split; auto. lia.
      * specialize (IH (i + 1)). destruct (validate (i + 1) rest).
        -- constructor; [unfold valid_coord; lia|assumption].
        -- destruct IH as (j & w & Hl & Hw & Hpre & ->).
           exists (Datatypes.S j), w. cbn. repeat split; auto.
           ++ constructor; [unfold valid_coord; lia|assumption].
           ++ f_equal. lia.
Qed.

(** The three outcomes of [New]. *)
Lemma New_cases coords :
  (len coords > 12 /\ New coords = Panic (TooManyDimensions 12))
  \/ (len coords <= 12 /\
      exists j v, coords !! j = Some v /\ (v < 0 \/ v > 1048575) /\
        Forall valid_coord (take j coords) /\
        New coords = Panic (CoordOutOfRange (Z.of_nat j) v 1048575))
  \/ (len coords <= 12 /\ Forall valid_coord coords /\
      exists a, New coords = Ok a).
Proof.
  destruct (Z.lt_ge_cases 12 (len coords)) as [Hgt|Hle].
  - left. split; [lia|]. unfold New, MaxDimensions.
    destruct (Z.gtb_spec (len coords) 12); [reflexivity|lia].
  - right. pose proof (validate_spec coords 0) as Hv.
    destruct (validate 0 coords) as [u|e] eqn:Hval.
    + right. split; [lia|]. split; [assumption|].
      destruct (New_roundtrip coords) as (a & _ & Ha & _);
        [unfold MaxDimensions; lia|assumption|]. now exists a.
    + left. split; [lia|]. destruct Hv as (j & v & Hl & Hbad & Hpre & ->).
      exists j, v. repeat split; try assumption.
      unfold New, MaxDimensions.
      destruct (Z.gtb_spec (len coords) 12); [lia|]. rewrite Hval. reflexivity.
Qed.

(** ** Loops that return early *)

Lemma all_loop_spec (f : Z -> bool) (test : Z -> result bool) n : forall i,
  (forall j, i <= j < i + Z.of_nat n -> test j = Ok (f j)) ->
  exists r, all_loop n i test = Ok r /\
    (r = true <-> forall j, i <= j < i + Z.of_nat n -> f j = true).
Proof.
  induction n as [|n IH]; intros i Htest; cbn [all_loop].
  - exists true. split; [reflexivity|]. split; [intros _ j Hj; lia|reflexivity].
  - rewrite (Htest i) by lia. cbn [bind]. destruct (f i) eqn:Hfi.
    + destruct (IH (i + 1)) as (r & Hr & Hiff).
      { intros j Hj. apply Htest. lia. }
      exists r. split; [assumption|]. rewrite Hiff. split.
      * intros Hall j Hj. destruct (Z.eq_dec j i) as [->|Hne]; [assumption|].
        apply Hall. lia.
      * intros Hall j Hj. apply Hall. lia.
    + exists false. split; [reflexivity|]. split; [discriminate|].
      intros Hall. rewrite <- Hfi. apply Hall. lia.
Qed.

Lemma all_range_spec (f : Z -> bool) (test : Z -> result bool) n :
  0 <= n ->
  (forall j, 0 <= j < n -> test j = Ok (f j)) ->
  exists r, all_range n test = Ok r /\
    (r = true <-> forall j, 0 <= j < n -> f j = true).
Proof.
  intros Hn Htest. unfold all_range.
  destruct (all_loop_spec f test (Z.to_nat n) 0) as (r & Hr & Hiff).
  - intros j Hj. apply Htest. lia.
  - exists r. split; [assumption|]. rewrite Hiff.
    split; intros Hall j Hj; apply Hall; lia.
Qed.

(** ** Prefix containment *)

Lemma Contains_spec a b :
  Dims a <= 12 -> Dims b <= 12 ->
  exists bufa bufb r,
    Coords a = Ok (bufa, Dims a) /\ Coords b = Ok (bufb, Dims b) /\
    Contains a b = Ok r /\
    (r = true <->
     Dims a <= Dims b /\
     forall i, 0 <= i < Dims a -> coord bufa i = coord bufb i).
Proof.
  intros Ha Hb.
  destruct (Coords_decode a Ha) as (bufa & Hca & Hla & _).
  destruct (Coords_decode b Hb) as (bufb & Hcb & Hlb & _).
  pose proof (Dims_range a) as Hra.
  exists bufa, bufb. unfold Contains. rewrite Hca, Hcb. cbn [bind fst].
  destruct (Z.gtb_spec (Dims a) (Dims b)) as [Hgt|Hle].
  - exists false. split; [reflexivity|]. split; [reflexivity|].
    split; [reflexivity|]. split; [discriminate|]. lia.
  - destruct (all_range_spec (fun i => coord bufa i =? coord bufb i)
                (fun i => let* x := index bufa i in
                          let* y := index bufb i in Ok (x =? y))
                (Dims a)) as (r & Hr & Hiff); [lia| |].
    + intros j Hj. rewrite !index_ok by lia. reflexivity.
    + exists r. split; [reflexivity|]. split; [reflexivity|].
      split; [assumption|]. rewrite Hiff. split.
      * intros Hall. split; [lia|]. intros i Hi. apply Z.eqb_eq. now apply Hall.
      * intros [_ Hall] j Hj. apply Z.eqb_eq. now apply Hall.
Qed.

(** ** Range test *)

Lemma InRange_loop_spec buf d ranges : forall idx,
  0 <= idx -> d <= len buf ->
  exists r, InRange_loop buf d idx ranges = Ok r /\
    (r = true <->
     forall k ran, ranges !! k = Some ran -> idx + Z.of_nat k < d ->
       admits ran (coord buf (idx + Z.of_nat k))).
Proof.
  induction ranges as [|ran rest IH]; intros idx Hidx Hd; cbn [InRange_loop].
  - exists true. split; [reflexivity|]. split; [|reflexivity].
    intros _ k ran Hk. now rewrite lookup_nil in Hk.
  - destruct (Z.geb_spec idx d) as [Hge|Hlt].
    { exists true. split; [reflexivity|]. split; [|reflexivity].
      intros _ k r _ Hk. lia. }
    rewrite index_ok by lia. fold (coord buf idx).
    assert (Hlow :
      (if negb (fst ran =? -1)
       then let* c := Ok (coord buf idx) in Ok (c <? fst ran)
       else Ok false)
      = Ok (negb (fst ran =? -1) && (coord buf idx <? fst ran)))
      by (destruct (fst ran =? -1); reflexivity).
    assert (Hhigh :
      (if negb (snd ran =? -1)
       then let* c := Ok (coord buf idx) in Ok (c >? snd ran)
       else Ok false)
      = Ok (negb (snd ran =? -1) && (coord buf idx >? snd ran)))
      by (destruct (snd ran =? -1); reflexivity).
    rewrite Hlow, Hhigh. cbn [bind]. clear Hlow Hhigh.
    destruct (negb (fst ran =? -1) && (coord buf idx <? fst ran)) eqn:Elow.
    { exists false. split; [reflexivity|]. split; [discriminate|].
      intros Hall. specialize (Hall 0%nat ran eq_refl ltac:(lia)).
      rewrite Z.add_0_r in Hall. destruct Hall as [Hmin _].
      apply andb_true_iff in Elow as [Hne Hc].
      apply negb_true_iff, Z.eqb_neq in Hne. apply Z.ltb_lt in Hc.
      specialize (Hmin Hne). lia. }
    destruct (negb (snd ran =? -1) && (coord buf idx >? snd ran)) eqn:Ehigh.
    { exists false. split; [reflexivity|]. split; [discriminate|].
      intros Hall. specialize (Hall 0%nat ran eq_refl ltac:(lia)).
      rewrite Z.add_0_r in Hall. destruct Hall as [_ Hmax].
      apply andb_true_iff in Ehigh as [Hne Hc].
      apply negb_true_iff, Z.eqb_neq in Hne. apply Z.gtb_lt in Hc.
      specialize (Hmax Hne). lia. }
    destruct (IH (idx + 1)) as (r & Hr & Hiff); [lia|assumption|].
    exists r. split; [assumption|]. rewrite Hiff. split.
    + intros Hall [|k] ran' Hk Hlt'; cbn in Hk.
      * injection Hk as <-. rewrite Z.add_0_r. split; intros Hne.
        -- apply andb_false_iff in Elow as [E|E].
           ++ apply negb_false_iff, Z.eqb_eq in E. contradiction.
           ++ apply Z.ltb_ge in E. assumption.
        -- apply andb_false_iff in Ehigh as [E|E].
           ++ apply negb_false_iff, Z.eqb_eq in E. contradiction.
           ++ destruct (Z.gtb_spec (coord buf idx) (snd ran)); [discriminate|lia].
      * replace (idx + Z.of_nat (Datatypes.S k)) with (idx + 1 + Z.of_nat k) by lia.
        apply Hall; [assumption|lia].
    + intros Hall k ran' Hk Hlt'.
      replace (idx + 1 + Z.of_nat k) with (idx + Z.of_nat (Datatypes.S k)) by lia.
      apply Hall; [exact Hk|lia].
Qed.

Lemma InRange_spec a ranges :
  Dims a <= 12 ->
  exists buf r,
    Coords a = Ok (buf, Dims a) /\ InRange a ranges = Ok r /\
    (r = true <->
     forall i ran, 0 <= i < Z.min (len_ranges ranges) (Dims a) ->
       ranges !! Z.to_nat i = Some ran -> admits ran (coord buf i)).
Proof.
  intros Hd. destruct (Coords_decode a Hd) as (buf & Hc & Hl & _).
  destruct (InRange_loop_spec buf (Dims a) ranges 0) as (r & Hr & Hiff);
    [lia|lia|].
  exists buf, r. unfold InRange. rewrite Hc. cbn [bind].
  split; [reflexivity|]. split; [assumption|]. rewrite Hiff. split.
  - intros Hall i ran Hi Hl'. specialize (Hall (Z.to_nat i) ran Hl' ltac:(lia)).
    now replace (0 + Z.of_nat (Z.to_nat i)) with i in Hall by lia.
  - intros Hall k ran Hk Hlt. rewrite Z.add_0_l in *.
    apply Hall; [|now rewrite Nat2Z.id].
    apply lookup_lt_Some in Hk. unfold len_ranges. lia.
Qed.

(** ** Copy loops and the transformers *)

Lemma coord_take l n i :
  0 <= i < Z.of_nat n -> coord (take n l) i = coord l i.
Proof.
  intros Hi. unfold coord. rewrite !nth_lookup, lookup_take_lt by lia.
  reflexivity.
Qed.

Lemma len_make n : 0 <= n -> len (make n) = n.
Proof. intros Hn. unfold len, make. rewrite length_replicate. lia. Qed.

(** [for i := range d { c[i] = buf[i] }] fills [c] with the first [d]
    entries of [buf]. *)
Lemma copy_loop buf d c0 :
  0 <= d <= len buf -> len c0 = d ->
  for_range d (fun i c => let* x := index buf i in store c i x) c0
  = Ok (take (Z.to_nat d) buf).
Proof.
  intros Hd Hc0.
  destruct (for_range_inv
    (fun j c => len c = d /\ forall k, 0 <= k < j -> coord c k = coord buf k)
    (fun i c => let* x := index buf i in store c i x) d c0)
    as (c & Hc & Hlen & Hall).
  - lia.
  - split; [assumption|]. intros k Hk. lia.
  - intros j c Hj [Hlen Hall]. rewrite index_ok by lia. cbn [bind].
    rewrite store_ok by lia. eexists. split; [reflexivity|].
    split; [now rewrite len_insert|]. intros k Hk.
    unfold coord. rewrite nth_insert_Z by lia.
    destruct (Z.eqb_spec k j) as [->|Hne]; [reflexivity|]. apply Hall. lia.
  - rewrite Hc. f_equal. symmetry.
    replace (Z.to_nat d) with (length c) by (unfold len in Hlen; lia).
    apply take_prefix_eq; [lia|]. intros i Hi. symmetry. apply Hall. lia.
Qed.

Lemma At_spec a buf j :
  Coords a = Ok (buf, Dims a) -> len buf = 12 -> Dims a <= 12 ->
  At a j = if (j <? 0) || (j >=? Dims a)
           then Panic (DimIndexOutOfRange j (Dims a))
           else Ok (coord buf j).
Proof.
  intros Hc Hl Hd. unfold At. rewrite Hc. cbn [bind].
  destruct (Z.ltb_spec j 0); cbn [orb]; [reflexivity|].
  destruct (Z.geb_spec j (Dims a)); [reflexivity|].
  apply index_ok. lia.
Qed.

(** On an encoded sequence, [With] is the encoding of the updated
    sequence. *)
Lemma With_New coords a i v :
  len coords <= 12 -> Forall valid_coord coords -> New coords = Ok a ->
  0 <= i < len coords ->
  With a i v = New (<[Z.to_nat i := v]> coords).
Proof.
  intros Hd Hall Ha Hi.
  destruct (New_roundtrip coords Hd Hall) as (a' & buf & Ha' & HD & Hc & Hl & Ht & _).
  rewrite Ha in Ha'. injection Ha' as <-.
  unfold With. rewrite Hc. cbn [bind].
  destruct (Z.ltb_spec i 0); [lia|]. destruct (Z.geb_spec i (len coords)); [lia|].
  cbn [orb]. rewrite copy_loop; [|lia|apply len_make; lia]. cbn [bind].
  replace (Z.to_nat (len coords)) with (length coords) by (unfold len; lia).
  rewrite Ht. rewrite store_ok by lia. reflexivity.
Qed.

Lemma With_index_panic coords a i v :
  len coords <= 12 -> Forall valid_coord coords -> New coords = Ok a ->
  ~ (0 <= i < len coords) ->
  With a i v = Panic (DimIndexOutOfRange i (len coords)).
Proof.
  intros Hd Hall Ha Hi.
  destruct (New_roundtrip coords Hd Hall) as (a' & buf & Ha' & HD & Hc & Hl & Ht & _).
  rewrite Ha in Ha'. injection Ha' as <-.
  unfold With. rewrite Hc. cbn [bind].
  destruct (Z.ltb_spec i 0); cbn [orb]; [reflexivity|].
  destruct (Z.geb_spec i (len coords)); [reflexivity|lia].
Qed.

(** Every address the encoder returns has a header of at most 12. *)
Lemma New_Dims coords a : New coords = Ok a -> Dims a = len coords /\ Dims a <= 12.
Proof.
  intros Ha.
  destruct (New_cases coords) as [[_ H]|[(_ & j & v & _ & _ & _ & H)|(Hd & Hall & _)]];
    try congruence.
  destruct (New_roundtrip coords Hd Hall) as (a' & buf & Ha' & HD & _).
  rewrite Ha in Ha'. injection Ha' as <-. lia.
Qed.

(** ** Decoding into a caller's buffer *)

Lemma CoordsSlice_spec a buf :
  Dims a <= 12 -> IntSlice_wf buf ->
  exists dec,
    Coords a = Ok (dec, Dims a) /\ len dec = 12 /\
    (slen buf < Dims a ->
     CoordsSlice a buf = Panic (BufTooSmall (Dims a) (slen buf))) /\
    (Dims a <= slen buf ->
     exists out,
       CoordsSlice a buf = Ok out /\ slen out = Dims a /\ cap out = cap buf /\
       contents out = take (Z.to_nat (Dims a)) dec /\
       forall k, Dims a <= k -> coord (elems out) k = coord (elems buf) k).
Proof.
  intros Hd [Hwf0 Hwf]. pose proof (Dims_range a) as Hr.
  destruct (Coords_decode a Hd) as (dec & Hc & Hl & _).
  exists dec. split; [assumption|]. split; [assumption|].
  unfold CoordsSlice. rewrite Hc. cbn [bind]. split.
  - intros Hlt. destruct (Z.ltb_spec (slen buf) (Dims a)); [reflexivity|lia].
  - intros Hge. destruct (Z.ltb_spec (slen buf) (Dims a)); [lia|].
    unfold reslice. destruct (Z.leb_spec 0 (Dims a)); [|lia].
    destruct (Z.leb_spec (Dims a) (cap buf)); [|lia]. cbn [andb bind].
    destruct (for_range_inv
      (fun j s => slen s = Dims a /\ cap s = cap buf /\
         (forall k, 0 <= k < j -> coord (elems s) k = coord dec k) /\
         (forall k, j <= k -> coord (elems s) k = coord (elems buf) k))
      (fun i s => let* c := index dec i in slice_store s i c)
      (Dims a) (mkSlice (elems buf) (Dims a)))
      as (out & Hout & Hslen & Hcap & Hlow & Hhigh).
    + lia.
    + cbn. repeat split; intros; try reflexivity. lia.
    + intros j s Hj (Hslen & Hcap & Hlow & Hhigh).
      rewrite index_ok by lia. cbn [bind]. unfold slice_store.
      destruct (Z.leb_spec 0 j); [|lia].
      destruct (Z.ltb_spec j (slen s)); [|lia]. cbn [andb].
      eexists. split; [reflexivity|]. cbn [slen elems]. unfold cap in *.
      cbn [elems]. rewrite len_insert.
      split; [assumption|]. split; [assumption|].
      split; intros k Hk; unfold coord; rewrite nth_insert_Z by lia.
      * destruct (Z.eqb_spec k j) as [->|Hne]; [reflexivity|]. apply Hlow. lia.
      * destruct (Z.eqb_spec k j) as [->|Hne]; [lia|]. apply Hhigh. lia.
    + exists out. split; [assumption|]. split; [assumption|].
      split; [assumption|]. split; [|assumption].
      unfold contents. rewrite Hslen.
      assert (Hlen : length (take (Z.to_nat (Dims a)) dec) = Z.to_nat (Dims a))
        by (rewrite length_take; unfold len in Hl; lia).
      rewrite <- Hlen at 1. apply take_prefix_eq.
      * unfold len at 1. rewrite Hlen. unfold cap in *. lia.
      * intros i Hi. unfold len in Hi. rewrite Hlen in Hi.
        rewrite coord_take by lia. apply Hlow. lia.
Qed.

(** ** Headers above the dimension limit *)

Lemma Coords_body_abort_or a d p i buf :
  0 <= d <= 15 -> 0 <= p < 20 -> 0 <= i < d -> len buf = 12 ->
  ok_or (fun b => len b = 12) (decode_abort d) (Coords_body a d p i buf).
Proof.
  intros Hd Hp Hi Hl. unfold Coords_body.
  assert (He : 4 <= 4 + p * d + i < 320) by nia.
  set (e0 := 4 + p * d + i) in *.
  rewrite Z.quot_div_nonneg, Z.rem_mod_nonneg by lia.
  assert (Hk : 0 <= e0 / 64 <= 4)
    by (split; [apply Z.div_pos; lia|];
        assert (e0 / 64 < 5) by (apply Z.div_lt_upper_bound; lia); lia).
  destruct (Z.eq_dec (e0 / 64) 4) as [->|Hne].
  - rewrite Addr_get_panic by lia. cbn. now left.
  - rewrite Addr_get_ok by lia. cbn [bind].
    destruct (Z.land (Z.shiftr (word a (e0 / 64)) (e0 mod 64)) 1 =? 1);
      [|exact Hl].
    destruct (Z.lt_ge_cases i 12).
    + rewrite index_ok by lia. cbn [bind]. rewrite store_ok by lia.
      cbn. now rewrite len_insert.
    + rewrite index_panic by lia. cbn. right. exists i. rewrite Hl.
      split; [lia|reflexivity].
Qed.

Lemma Coords_body_abort a d p i buf :
  256 <= 4 + p * d + i < 320 ->
  no_result (decode_abort d) (Coords_body a d p i buf).
Proof.
  intros He. unfold Coords_body.
  set (e0 := 4 + p * d + i) in *.
  rewrite Z.quot_div_nonneg by lia.
  assert (Hk : e0 / 64 = 4).
  { assert (4 <= e0 / 64) by (apply Z.div_le_lower_bound; lia).
    assert (e0 / 64 < 5) by (apply Z.div_lt_upper_bound; lia). lia. }
  rewrite Hk, Addr_get_panic by lia. cbn. now left.
Qed.

(** With a header of 13, 14 or 15 the decoder does not return. *)
Lemma Coords_abort a :
  13 <= Dims a -> no_result (decode_abort (Dims a)) (Coords a).
Proof.
  intros Hd. pose proof (Dims_range a) as Hr.
  assert (Hloops :
    no_result (decode_abort (Dims a))
      (for_range BitsPerCoord (fun bitPos coords =>
         for_range (Dims a) (fun dimIdx coords =>
           Coords_body a (Dims a) bitPos dimIdx coords) coords) zeroBuffer)).
  { unfold for_range at 1.
    apply (loop_no_result (fun b => len b = 12) _ _ _ _ _ 19).
    - unfold BitsPerCoord. lia.
    - reflexivity.
    - intros k t Hk Ht. unfold for_range.
      apply loop_ok_or; [assumption|]. intros j u Hj Hu.
      apply Coords_body_abort_or; lia.
    - intros t Ht. unfold for_range.
      apply (loop_no_result (fun b => len b = 12) _ _ _ _ _
               (if Dims a =? 13 then 5 else 0)).
      + destruct (Z.eqb_spec (Dims a) 13); lia.
      + assumption.
      + intros k u Hk Hu. apply Coords_body_abort_or; try lia.
        destruct (Z.eqb_spec (Dims a) 13); lia.
      + intros u Hu. apply Coords_body_abort.
        destruct (Z.eqb_spec (Dims a) 13); lia. }
  unfold Coords.
  destruct (for_range BitsPerCoord _ zeroBuffer); cbn in *; tauto.
Qed.


(** * The properties of the specification *)

(** ** Encoder and decoder *)

(** C1 (round trip).  For every coordinate sequence of length [d], [0 <= d
    <= 12], with every element in [[0, 1048575]], [New] returns an address
    and [Coords] of that address returns the count [d] together with a
    buffer whose first [d] entries are the sequence. *)
Theorem Coords_New_roundtrip coords :
  len coords <= 12 ->
  Forall (fun v => 0 <= v <= 1048575) coords ->
  exists a buf,
    New coords = Ok a /\
    Coords a = Ok (buf, len coords) /\
    take (length coords) buf = coords.
Proof.
  intros Hd Hall.
  destruct (New_roundtrip coords Hd Hall) as (a & buf & Ha & _ & Hc & _ & Ht & _).
  now exists a, buf.
Qed.

Lemma Coords_New_roundtrip_witness :
  exists a buf,
    New [5; 1048575; 0] = Ok a /\
    Coords a = Ok (buf, 3) /\
    take 3 buf = [5; 1048575; 0].
Proof.
  apply (Coords_New_roundtrip [5; 1048575; 0]).
  - unfold len. cbn. lia.
  - repeat constructor; lia.
Defined.

(** C2 (injectivity).  For valid sequences [ca] and [cb], the addresses
    [New ca] and [New cb] are the same four words, which is what [Equal]
    compares, if and only if [ca] and [cb] have the same length and agree
    elementwise. *)
Theorem New_injective ca cb :
  len ca <= 12 -> Forall (fun v => 0 <= v <= 1048575) ca ->
  len cb <= 12 -> Forall (fun v => 0 <= v <= 1048575) cb ->
  exists a b,
    New ca = Ok a /\ New cb = Ok b /\
    (Equal a b = true <-> a = b) /\
    (a = b <->
     len ca = len cb /\ forall i, 0 <= i < len ca -> coord ca i = coord cb i).
Proof.
  intros Hda Ha Hdb Hb.
  destruct (New_roundtrip ca Hda Ha) as (a & bufa & HNa & _ & Hca & _ & Hta & _).
  destruct (New_roundtrip cb Hdb Hb) as (b & bufb & HNb & _ & Hcb & _ & Htb & _).
  exists a, b. split; [assumption|]. split; [assumption|].
  split; [apply Equal_eq|]. split.
  - intros ->. rewrite Hca in Hcb. injection Hcb as -> Hlen.
    assert (ca = cb) as ->; [|split; [reflexivity|intros; reflexivity]].
    rewrite <- Hta, <- Htb. unfold len in Hlen. f_equal. lia.
  - intros [Hlen Hall]. assert (ca = cb) as -> by now apply coords_ext.
    congruence.
Qed.

Lemma New_injective_witness :
  exists a b,
    New [1; 2] = Ok a /\ New [2; 1] = Ok b /\
    (Equal a b = true <-> a = b) /\
    (a = b <->
     len [1; 2] = len [2; 1] /\
     forall i, 0 <= i < len [1; 2] -> coord [1; 2] i = coord [2; 1] i).
Proof.
  apply (New_injective [1; 2] [2; 1]).
  - unfold len. cbn. lia.
  - repeat constructor; lia.
  - unfold len. cbn. lia.
  - repeat constructor; lia.
Defined.

(** C3, as the code has it.  [New] validates in order: it panics with the
    dimension-limit message, which carries the limit 12 (and not the
    requested count), exactly when the sequence has more than 12 elements;
    otherwise it panics with the coordinate-out-of-range message exactly
    when some element is negative or exceeds 1048575, and the message
    carries the index and the value of the first such element and the bound
    1048575; otherwise it returns an address. *)
Theorem New_validation coords :
  (New coords = Panic (TooManyDimensions 12) <-> len coords > 12) /\
  ((exists i v m, New coords = Panic (CoordOutOfRange i v m)) <->
   len coords <= 12 /\ Exists (fun v => v < 0 \/ v > 1048575) coords) /\
  (forall i v m, New coords = Panic (CoordOutOfRange i v m) ->
     0 <= i /\ coords !! Z.to_nat i = Some v /\ (v < 0 \/ v > 1048575) /\
     Forall (fun w => 0 <= w <= 1048575) (take (Z.to_nat i) coords) /\
     m = 1048575) /\
  ((exists a, New coords = Ok a) <->
   len coords <= 12 /\ Forall (fun v => 0 <= v <= 1048575) coords) /\
  (forall e, New coords = Panic e ->
     e = TooManyDimensions 12 \/ exists i v, e = CoordOutOfRange i v 1048575).
Proof.
  destruct (New_cases coords)
    as [[Hlen HN]|[(Hlen & j & v & Hl & Hbad & Hpre & HN)|(Hlen & Hall & a & HN)]];
    rewrite HN.
  - split; [split; [intros _; assumption|reflexivity]|].
    split; [split; [intros (i & v & m & [=])|intros [? _]; lia]|].
    split; [intros i v m [=]|].
    split; [split; [intros [a [=]]|intros [? _]; lia]|].
    intros e [= <-]. now left.
  - split; [split; [intros [=]|lia]|].
    split.
    { split; [intros _|intros _; eauto].
      split; [assumption|]. apply Exists_exists. exists v.
      split; [|assumption]. apply (proj2 (list_elem_of_lookup _ _)). eauto. }
    split.
    { intros i w m [= <- <- <-]. rewrite Nat2Z.id.
      split; [lia|]. repeat split; assumption. }
    split.
    { split; [intros [a [=]]|]. intros [_ Hall]. exfalso.
      pose proof (Forall_lookup_1 _ _ _ _ Hall Hl) as Hv. cbn in Hv. lia. }
    intros e [= <-]. right. eauto.
  - split; [split; [intros [=]|lia]|].
    split.
    { split; [intros (i & v & m & [=])|]. intros [_ Hex]. exfalso.
      apply Exists_exists in Hex as (v & Hin & Hbad).
      rewrite Forall_forall in Hall. 
      pose proof (Hall v Hin) as Hv.
      unfold valid_coord, MaxCoordValue, BitsPerCoord in Hv.
      change (Z.shiftl 1 20 - 1) with 1048575 in Hv. lia. }
    split; [intros i v m [=]|].
    split; [split; [intros _; split; assumption|intros _; eauto]|].
    intros e [=].
Qed.

Lemma New_validation_witness :
  New (replicate 13 7) = Panic (TooManyDimensions 12) /\
  exists a, New [0; 1048575] = Ok a.
Proof.
  split.
  - apply (proj2 (proj1 (New_validation (replicate 13 7)))).
    unfold len. cbn. lia.
  - apply (proj2 (proj1 (proj2 (proj2 (proj2 (New_validation [0; 1048575])))))).
    split; [unfold len; cbn; lia|repeat constructor; lia].
Defined.

(** The panic of [New] on 13 and on 14 coordinates is the same value, whose
    text names the limit only: the requested count is not reported. *)
Lemma New_dimension_panic_omits_count :
  New (replicate 13 0) = Panic (TooManyDimensions 12) /\
  New (replicate 14 0) = Panic (TooManyDimensions 12) /\
  message (TooManyDimensions 12) = "lattice: max 12 dimensions supported"%string /\
  ~ (exists requested : panic -> Z,
       forall coords e, len coords > 12 -> New coords = Panic e ->
         requested e = len coords).
Proof.
  split; [reflexivity|]. split; [reflexivity|]. split; [reflexivity|].
  intros [requested Hreq].
  pose proof (Hreq (replicate 13 0) _ ltac:(unfold len; cbn; lia) eq_refl) as H13.
  pose proof (Hreq (replicate 14 0) _ ltac:(unfold len; cbn; lia) eq_refl) as H14.
  rewrite H13 in H14. unfold len in H14. cbn in H14. lia.
Qed.

(** ** Predicates *)

(** C4 (prefix containment).  For addresses [a] and [b] built by [New],
    [a.Contains(b)] returns, and returns true if and only if [Dims a <= Dims
    b] and the decoded coordinates of [a] and [b] agree at every index below
    [Dims a], which is to say that the sequence [a] was built from is a
    prefix of the one [b] was built from.  An address of 0 dimensions
    contains every built address, itself included, and the relation is not
    symmetric: [New(1,2)] contains [New(1,2,3)] and not the converse. *)
Theorem Contains_prefix ca cb :
  len ca <= 12 -> Forall (fun v => 0 <= v <= 1048575) ca ->
  len cb <= 12 -> Forall (fun v => 0 <= v <= 1048575) cb ->
  (exists a b bufa bufb r,
     New ca = Ok a /\ New cb = Ok b /\
     Coords a = Ok (bufa, Dims a) /\ Coords b = Ok (bufb, Dims b) /\
     Contains a b = Ok r /\
     (r = true <->
      Dims a <= Dims b /\
      forall i, 0 <= i < Dims a -> coord bufa i = coord bufb i) /\
     (r = true <->
      len ca <= len cb /\
      forall i, 0 <= i < len ca -> coord ca i = coord cb i) /\
     (Dims a = 0 -> r = true)) /\
  (exists a b,
     New [1; 2] = Ok a /\ New [1; 2; 3] = Ok b /\
     Contains a b = Ok true /\ Contains b a = Ok false) /\
  (exists z, New [] = Ok z /\ Dims z = 0 /\ Contains z z = Ok true).
Proof.
  intros Hda Ha Hdb Hb. split.
  - destruct (New_roundtrip ca Hda Ha)
      as (a & bufa & HNa & HDa & Hca & _ & Hta & _).
    destruct (New_roundtrip cb Hdb Hb)
      as (b & bufb & HNb & HDb & Hcb & _ & Htb & _).
    destruct (Contains_spec a b) as (bufa' & bufb' & r & Hca' & Hcb' & Hr & Hiff);
      [lia|lia|].
    rewrite HDa in Hca'. rewrite Hca in Hca'. injection Hca' as <-.
    rewrite HDb in Hcb'. rewrite Hcb in Hcb'. injection Hcb' as <-.
    assert (Hea : forall i, 0 <= i < len ca -> coord bufa i = coord ca i).
    { intros i Hi. pose proof (coord_take bufa (length ca) i) as Ht.
      rewrite Hta in Ht. symmetry. apply Ht. unfold len in Hi. lia. }
    assert (Heb : forall i, 0 <= i < len cb -> coord bufb i = coord cb i).
    { intros i Hi. pose proof (coord_take bufb (length cb) i) as Ht.
      rewrite Htb in Ht. symmetry. apply Ht. unfold len in Hi. lia. }
    exists a, b, bufa, bufb, r. rewrite HDa, HDb in *.
    split; [assumption|]. split; [assumption|]. split; [assumption|].
    split; [assumption|]. split; [assumption|]. split; [exact Hiff|]. split.
    + rewrite Hiff. split; intros [Hle Hall]; (split; [assumption|]);
        intros i Hi; specialize (Hall i Hi).
      * rewrite <- Hea, <- Heb by lia. assumption.
      * rewrite Hea, Heb by lia. assumption.
    + intros Hz. apply Hiff. pose proof (len_nonneg cb).
      split; [lia|]. intros i Hi. lia.
  - split.
    + exists (mkAddr 146 0 0 0), (mkAddr 851 0 0 0). repeat split; reflexivity.
    + exists zeroAddr. repeat split; reflexivity.
Qed.

Lemma Contains_prefix_witness :
  exists a b bufa bufb r,
    New [1; 2] = Ok a /\ New [1; 2; 3] = Ok b /\
    Coords a = Ok (bufa, Dims a) /\ Coords b = Ok (bufb, Dims b) /\
    Contains a b = Ok r /\
    (r = true <->
     Dims a <= Dims b /\
     forall i, 0 <= i < Dims a -> coord bufa i = coord bufb i) /\
    (r = true <->
     len [1; 2] <= len [1; 2; 3] /\
     forall i, 0 <= i < len [1; 2] -> coord [1; 2] i = coord [1; 2; 3] i) /\
    (Dims a = 0 -> r = true).
Proof.
  apply (Contains_prefix [1; 2] [1; 2; 3]).
  - unfold len. cbn. lia.
  - repeat constructor; lia.
  - unfold len. cbn. lia.
  - repeat constructor; lia.
Defined.

(** C5 (range test).  For every address [a] that decodes (header at most
    12) to the coordinates [c] with count [d], and every list of [(min,
    max)] pairs, [a.InRange(ranges)] returns, and returns true if and only
    if for every index [i < min(len(ranges), d)], [c[i] >= min_i] unless
    [min_i] is [-1] and [c[i] <= max_i] unless [max_i] is [-1].  Dimensions
    past the supplied ranges and ranges past [d] do not enter the
    condition. *)
Theorem InRange_bounds a ranges :
  Dims a <= 12 ->
  exists c r,
    Coords a = Ok (c, Dims a) /\ InRange a ranges = Ok r /\
    (r = true <->
     forall i mn mx,
       0 <= i < Z.min (len_ranges ranges) (Dims a) ->
       ranges !! Z.to_nat i = Some (mn, mx) ->
       (mn <> -1 -> mn <= coord c i) /\ (mx <> -1 -> coord c i <= mx)).
Proof.
  intros Hd. destruct (InRange_spec a ranges Hd) as (c & r & Hc & Hr & Hiff).
  exists c, r. split; [assumption|]. split; [assumption|]. rewrite Hiff.
  split.
  - intros Hall i mn mx Hi Hl. exact (Hall i (mn, mx) Hi Hl).
  - intros Hall i [mn mx] Hi Hl. exact (Hall i mn mx Hi Hl).
Qed.

Lemma InRange_bounds_witness :
  exists c r,
    Coords (mkAddr 851 0 0 0) = Ok (c, 3) /\
    InRange (mkAddr 851 0 0 0) [(1, 1); (-1, 5); (4, -1)] = Ok r /\
    (r = true <->
     forall i mn mx,
       0 <= i < Z.min 3 3 ->
       [(1, 1); (-1, 5); (4, -1)] !! Z.to_nat i = Some (mn, mx) ->
       (mn <> -1 -> mn <= coord c i) /\ (mx <> -1 -> coord c i <= mx)).
Proof.
  apply (InRange_bounds (mkAddr 851 0 0 0) [(1, 1); (-1, 5); (4, -1)]).
  change (3 <= 12). lia.
Defined.

(** ** Decoding into a caller's buffer *)

(** C6, as the code has it.  For every address with dimension count [d] (a
    header of at most 12), [CoordsSlice] panics with the buffer-too-small
    message, carrying [d] and the buffer's length, exactly when the length
    of the caller's buffer (not its capacity) is less than [d]; otherwise it
    returns the buffer re-sliced to length [d], holding the [d] decoded
    coordinates, the rest of the backing store untouched. *)
Theorem CoordsSlice_length_check a buf :
  Dims a <= 12 -> IntSlice_wf buf ->
  ((exists need got, CoordsSlice a buf = Panic (BufTooSmall need got)) <->
   slen buf < Dims a) /\
  (slen buf < Dims a ->
   CoordsSlice a buf = Panic (BufTooSmall (Dims a) (slen buf))) /\
  (Dims a <= slen buf ->
   exists dec out,
     Coords a = Ok (dec, Dims a) /\ CoordsSlice a buf = Ok out /\
     slen out = Dims a /\ cap out = cap buf /\
     contents out = take (Z.to_nat (Dims a)) dec /\
     forall k, Dims a <= k -> coord (elems out) k = coord (elems buf) k).
Proof.
  intros Hd Hwf.
  destruct (CoordsSlice_spec a buf Hd Hwf) as (dec & Hc & _ & Hsmall & Hfits).
  split; [|split].
  - split.
    + intros (need & got & Hp). destruct (Z.lt_ge_cases (slen buf) (Dims a)) as [|Hge];
        [assumption|].
      destruct (Hfits Hge) as (out & Hout & _). congruence.
    + intros Hlt. eauto.
  - exact Hsmall.
  - intros Hge. destruct (Hfits Hge) as (out & Hout). exists dec, out. tauto.
Qed.

Lemma CoordsSlice_length_check_witness :
  exists dec out,
    Coords (mkAddr 851 0 0 0) = Ok (dec, 3) /\
    CoordsSlice (mkAddr 851 0 0 0) (mkSlice [9; 9; 9; 9; 9] 4) = Ok out /\
    slen out = 3 /\ cap out = 5 /\
    contents out = take 3 dec /\
    forall k, 3 <= k -> coord (elems out) k = coord [9; 9; 9; 9; 9] k.
Proof.
  apply (CoordsSlice_length_check (mkAddr 851 0 0 0) (mkSlice [9; 9; 9; 9; 9] 4)).
  - change (3 <= 12). lia.
  - unfold IntSlice_wf, cap, len. cbn. lia.
  - change (3 <= 4). lia.
Defined.

(** A buffer of length 2 and capacity 12 has room for the 3 coordinates of
    [New(1,2,3)]; [CoordsSlice] panics all the same, on the length. *)
Lemma CoordsSlice_capacity_suffices_yet_panics :
  New [1; 2; 3] = Ok (mkAddr 851 0 0 0) /\
  Dims (mkAddr 851 0 0 0) = 3 /\
  IntSlice_wf (mkSlice (replicate 12 0) 2) /\
  cap (mkSlice (replicate 12 0) 2) = 12 /\
  ~ (cap (mkSlice (replicate 12 0) 2) < Dims (mkAddr 851 0 0 0)) /\
  CoordsSlice (mkAddr 851 0 0 0) (mkSlice (replicate 12 0) 2)
  = Panic (BufTooSmall 3 2).
Proof.
  split; [reflexivity|]. split; [reflexivity|].
  split; [unfold IntSlice_wf, cap, len; cbn; lia|].
  split; [reflexivity|]. split; [|reflexivity].
  change (~ (12 < 3)). lia.
Qed.

(** ** Transformers *)

Lemma At_New coords a j :
  len coords <= 12 -> Forall valid_coord coords -> New coords = Ok a ->
  0 <= j < len coords -> At a j = Ok (coord coords j).
Proof.
  intros Hd Hall Ha Hj.
  destruct (New_roundtrip coords Hd Hall)
    as (a' & buf & Ha' & HD & Hc & Hl & Ht & _).
  rewrite Ha in Ha'. injection Ha' as <-.
  rewrite <- HD in Hc. rewrite (At_spec a buf j Hc Hl) by lia.
  destruct (Z.ltb_spec j 0); [lia|]. destruct (Z.geb_spec j (Dims a)); [lia|].
  cbn [orb]. f_equal. pose proof (coord_take buf (length coords) j) as Hct.
  rewrite Ht in Hct. symmetry. apply Hct. unfold len in Hj. lia.
Qed.

(** C7 ([With]).  For an address [a] built by [New]: [a.With(i, value)]
    panics with the index-out-of-range message exactly when [i < 0] or [i >=
    a.Dims()]; when [0 <= i < a.Dims()] and [value] is in [[0, 1048575]] it
    returns an address of the same dimension count whose coordinate [i] is
    [value] and whose other coordinates are those of [a].  The receiver is
    passed by value: [a] is the same address after the call, and [a.At(j)]
    is the coordinate it was built from. *)
Theorem With_replaces_one coords i value :
  len coords <= 12 -> Forall (fun v => 0 <= v <= 1048575) coords ->
  exists a,
    New coords = Ok a /\
    (With a i value = Panic (DimIndexOutOfRange i (Dims a)) <->
     i < 0 \/ Dims a <= i) /\
    ((exists idx dims, With a i value = Panic (DimIndexOutOfRange idx dims)) <->
     i < 0 \/ Dims a <= i) /\
    (0 <= i < Dims a -> 0 <= value <= 1048575 ->
     exists a',
       With a i value = Ok a' /\ Dims a' = Dims a /\
       At a' i = Ok value /\
       forall j, 0 <= j < Dims a -> j <> i -> At a' j = At a j) /\
    (forall j, 0 <= j < Dims a -> At a j = Ok (coord coords j)).
Proof.
  intros Hd Hall.
  destruct (New_roundtrip coords Hd Hall) as (a & buf & Ha & HD & _).
  exists a. split; [assumption|]. rewrite HD.
  assert (Hnot : forall idx dims,
            0 <= i < len coords ->
            With a i value <> Panic (DimIndexOutOfRange idx dims)).
  { intros idx dims Hi. rewrite (With_New coords a i value Hd Hall Ha Hi).
    destruct (New_cases (<[Z.to_nat i := value]> coords))
      as [[_ HN]|[(_ & j & v & _ & _ & _ & HN)|(_ & _ & a' & HN)]];
      rewrite HN; discriminate. }
  split; [|split; [|split]].
  - split.
    + intros Hp. destruct (Z.lt_ge_cases i 0); [now left|].
      destruct (Z.lt_ge_cases i (len coords)); [|now right].
      exfalso. apply (Hnot i (len coords)); [lia|assumption].
    + intros Hi. apply (With_index_panic coords a i value Hd Hall Ha). lia.
  - split.
    + intros (idx & dims & Hp). destruct (Z.lt_ge_cases i 0); [now left|].
      destruct (Z.lt_ge_cases i (len coords)); [|now right].
      exfalso. apply (Hnot idx dims); [lia|assumption].
    + intros Hi. exists i, (len coords).
      apply (With_index_panic coords a i value Hd Hall Ha). lia.
  - intros Hi Hv. rewrite (With_New coords a i value Hd Hall Ha Hi).
    assert (Hd' : len (<[Z.to_nat i := value]> coords) <= 12)
      by now rewrite len_insert.
    assert (Hall' : Forall valid_coord (<[Z.to_nat i := value]> coords))
      by (apply Forall_insert; assumption).
    destruct (New_roundtrip _ Hd' Hall') as (a' & buf' & Ha' & HD' & _).
    exists a'. split; [assumption|]. rewrite len_insert in HD'.
    split; [assumption|]. split.
    + rewrite (At_New _ a' i Hd' Hall' Ha') by (rewrite len_insert; lia).
      unfold coord. rewrite nth_insert_Z by lia. now rewrite Z.eqb_refl.
    + intros j Hj Hne.
      rewrite (At_New _ a' j Hd' Hall' Ha') by (rewrite len_insert; lia).
      rewrite (At_New coords a j Hd Hall Ha Hj).
      unfold coord. rewrite nth_insert_Z by lia.
      destruct (Z.eqb_spec j i); [contradiction|reflexivity].
  - intros j Hj. now apply At_New.
Qed.

Lemma With_replaces_one_witness :
  exists a,
    New [1; 2; 3] = Ok a /\
    (With a 1 99 = Panic (DimIndexOutOfRange 1 (Dims a)) <->
     1 < 0 \/ Dims a <= 1) /\
    ((exists idx dims, With a 1 99 = Panic (DimIndexOutOfRange idx dims)) <->
     1 < 0 \/ Dims a <= 1) /\
    (0 <= 1 < Dims a -> 0 <= 99 <= 1048575 ->
     exists a',
       With a 1 99 = Ok a' /\ Dims a' = Dims a /\
       At a' 1 = Ok 99 /\
       forall j, 0 <= j < Dims a -> j <> 1 -> At a' j = At a j) /\
    (forall j, 0 <= j < Dims a -> At a j = Ok (coord [1; 2; 3] j)).
Proof.
  apply (With_replaces_one [1; 2; 3] 1 99).
  - unfold len. cbn. lia.
  - repeat constructor; lia.
Defined.

(** C8 (zeroed tail).  For every address [a] built by [New], [a.Coords()]
    returns the count [a.Dims()] and a buffer of 12 entries in which every
    entry at an index of [a.Dims()] or more is zero. *)
Theorem Coords_tail_zero coords :
  len coords <= 12 -> Forall (fun v => 0 <= v <= 1048575) coords ->
  exists a buf,
    New coords = Ok a /\ Coords a = Ok (buf, Dims a) /\
    length buf = 12%nat /\
    forall n, (n < 12)%nat -> Dims a <= Z.of_nat n -> buf !! n = Some 0.
Proof.
  intros Hd Hall.
  destruct (New_roundtrip coords Hd Hall)
    as (a & buf & Ha & HD & Hc & Hl & _ & Hzero).
  exists a, buf. rewrite HD. split; [assumption|]. split; [assumption|].
  split; [unfold len in Hl; lia|]. intros n Hn Hge.
  specialize (Hzero (Z.of_nat n) Hge). unfold coord in Hzero.
  rewrite Nat2Z.id, nth_lookup in Hzero.
  destruct (lookup_lt_is_Some_2 buf n) as [x Hx]; [unfold len in Hl; lia|].
  rewrite Hx in *. cbn in Hzero. now subst.
Qed.

Lemma Coords_tail_zero_witness :
  exists a buf,
    New [1048575; 1048575] = Ok a /\ Coords a = Ok (buf, Dims a) /\
    length buf = 12%nat /\
    forall n, (n < 12)%nat -> Dims a <= Z.of_nat n -> buf !! n = Some 0.
Proof.
  apply (Coords_tail_zero [1048575; 1048575]).
  - unfold len. cbn. lia.
  - repeat constructor; lia.
Defined.

(** ** Storage bounds *)







(** ** The zero value *)

(** C10, as the code has it.  The all-zero bit pattern is the address
    [New()] returns for no coordinates, and behaves as the empty address:
    [Dims()] is 0, [Coords()] is an all-zero buffer with count 0, [IsZero()]
    is true, and it [Contains] itself and every bit pattern whose header is
    at most 12, so every address [New] returns, and no other: on an argument
    whose header holds 13, 14 or 15, [Contains] decodes the argument and
    stops on the decoder's run-time error. *)
Theorem zero_value_is_empty_address :
  zeroAddr = mkAddr 0 0 0 0 /\
  New [] = Ok zeroAddr /\
  Dims zeroAddr = 0 /\
  Coords zeroAddr = Ok (replicate 12 0, 0) /\
  IsZero zeroAddr = Ok true /\
  Contains zeroAddr zeroAddr = Ok true /\
  (forall b, Contains zeroAddr b = Ok true <-> Dims b <= 12) /\
  (forall coords b, New coords = Ok b -> Contains zeroAddr b = Ok true) /\
  (forall b, 13 <= Dims b ->
     Contains zeroAddr b = Panic (RuntimeIndex 4 4) \/
     exists i, 12 <= i < Dims b /\
       Contains zeroAddr b = Panic (RuntimeIndex i 12)).
Proof.
  assert (Hall : forall b, Dims b <= 12 -> Contains zeroAddr b = Ok true).
  { intros b Hb.
    destruct (Contains_spec zeroAddr b) as (bufa & bufb & r & _ & _ & Hr & Hiff);
      [change (0 <= 12); lia|assumption|].
    rewrite Hr. f_equal. apply Hiff. change (Dims zeroAddr) with 0.
    pose proof (Dims_range b). split; [lia|]. intros i Hi. lia. }
  assert (Hstop : forall b, 13 <= Dims b ->
            Contains zeroAddr b = Panic (RuntimeIndex 4 4) \/
            exists i, 12 <= i < Dims b /\
              Contains zeroAddr b = Panic (RuntimeIndex i 12)).
  { intros b Hb. pose proof (Coords_abort b Hb) as Hab.
    unfold Contains. change (Dims zeroAddr) with 0.
    destruct (Z.gtb_spec 0 (Dims b)); [lia|].
    change (Coords zeroAddr) with (Ok (replicate 12 0, 0) : result (list Z * Z)).
    cbn [bind]. destruct (Coords b) as [r|e]; cbn in Hab; [contradiction|].
    cbn [bind]. destruct Hab as [->|(i & Hi & ->)]; [now left|right; eauto]. }
  repeat (split; [reflexivity|]). split; [|split; [|exact Hstop]].
  - intros b. split; [|apply Hall].
    intros Hok. destruct (Z.le_gt_cases (Dims b) 12) as [|Hgt]; [assumption|].
    destruct (Hstop b ltac:(lia)) as [Hp|(i & _ & Hp)];
      rewrite Hp in Hok; discriminate.
  - intros coords b Hb. apply Hall. now apply (New_Dims coords).
Qed.

Lemma zero_value_is_empty_address_witness :
  Contains zeroAddr (mkAddr 851 0 0 0) = Ok true /\
  (Contains zeroAddr (mkAddr 14 0 0 0) = Panic (RuntimeIndex 4 4) \/
   exists i, 12 <= i < 14 /\
     Contains zeroAddr (mkAddr 14 0 0 0) = Panic (RuntimeIndex i 12)).
Proof.
  split.
  - apply (proj2 (proj1 (proj2 (proj2 (proj2 (proj2 (proj2
             (proj2 zero_value_is_empty_address)))))) (mkAddr 851 0 0 0))).
    change (3 <= 12). lia.
  - apply (proj2 (proj2 (proj2 (proj2 (proj2 (proj2 (proj2
             (proj2 zero_value_is_empty_address)))))))
             (mkAddr 14 0 0 0)).
    change (13 <= 14). lia.
Defined.

(** The zero value does not contain the bit pattern whose header holds 13:
    the header test [0 > 13] passes, the argument is decoded, and at
    [bitPos = 19], [dimIdx = 5] the offset is 256, word index 4 of the four
    storage words. *)
Lemma zero_value_Contains_stops_on_header_13 :
  Dims (mkAddr 13 0 0 0) = 13 /\
  Z.quot (4 + 19 * 13 + 5) 64 = 4 /\
  Contains zeroAddr (mkAddr 13 0 0 0) = Panic (RuntimeIndex 4 4) /\
  ~ (forall b, Contains zeroAddr b = Ok true).
Proof.
  split; [reflexivity|]. split; [reflexivity|].
  assert (Hp : Contains zeroAddr (mkAddr 13 0 0 0) = Panic (RuntimeIndex 4 4))
    by (vm_compute; reflexivity).
  split; [exact Hp|]. intros Hall. rewrite (Hall (mkAddr 13 0 0 0)) in Hp.
  discriminate.
Qed.

(** * Further properties of the package *)

(** ** Sequences *)

Lemma coord_app_l (l1 l2 : list Z) i :
  0 <= i < len l1 -> coord (l1 ++ l2) i = coord l1 i.
Proof.
  unfold len. intros Hi. unfold coord.
  rewrite !nth_lookup, lookup_app_l by lia. reflexivity.
Qed.

Lemma coord_app_r (l1 l2 : list Z) i :
  len l1 <= i -> coord (l1 ++ l2) i = coord l2 (i - len l1).
Proof.
  unfold len. intros Hi. unfold coord.
  rewrite !nth_lookup, lookup_app_r by lia. do 2 f_equal. lia.
Qed.

Lemma coord_drop (l : list Z) n i :
  0 <= i -> coord (drop n l) i = coord l (Z.of_nat n + i).
Proof.
  intros Hi. unfold coord. rewrite !nth_lookup, lookup_drop.
  do 2 f_equal. lia.
Qed.

Lemma len_app (l1 l2 : list Z) : len (l1 ++ l2) = len l1 + len l2.
Proof. unfold len. rewrite length_app. lia. Qed.

(** [for i := range d { c[i] = buf[i] }] on a longer [c]: the first [d]
    entries are overwritten, the rest stays. *)
Lemma copy_loop_into buf d c0 :
  0 <= d <= len buf -> d <= len c0 ->
  for_range d (fun i c => let* x := index buf i in store c i x) c0
  = Ok (take (Z.to_nat d) buf ++ drop (Z.to_nat d) c0).
Proof.
  intros Hd Hc0.
  destruct (for_range_inv
    (fun j c => len c = len c0 /\
       (forall k, 0 <= k < j -> coord c k = coord buf k) /\
       (forall k, j <= k -> coord c k = coord c0 k))
    (fun i c => let* x := index buf i in store c i x) d c0)
    as (c & Hc & Hlen & Hlow & Hhigh).
  - lia.
  - split; [reflexivity|]. split; [intros k Hk; lia|reflexivity].
  - intros j c Hj (Hlen & Hlow & Hhigh). rewrite index_ok by lia. cbn [bind].
    rewrite store_ok by lia. eexists. split; [reflexivity|].
    split; [now rewrite len_insert|].
    split; intros k Hk; unfold coord; rewrite nth_insert_Z by lia.
    + destruct (Z.eqb_spec k j) as [->|Hne]; [reflexivity|]. apply Hlow. lia.
    + destruct (Z.eqb_spec k j) as [->|Hne]; [lia|]. apply Hhigh. lia.
  - rewrite Hc. f_equal.
    assert (Hlt : len (take (Z.to_nat d) buf) = d)
      by (unfold len in *; rewrite length_take; lia).
    apply coords_ext.
    + rewrite len_app, Hlt, Hlen. unfold len in *. rewrite length_drop. lia.
    + intros i Hi. destruct (Z.lt_ge_cases i d).
      * rewrite coord_app_l by lia. rewrite coord_take by lia. apply Hlow. lia.
      * rewrite coord_app_r by lia. rewrite Hlt, coord_drop by lia.
        rewrite Hhigh by lia. f_equal. lia.
Qed.

(** ** Transformers on encoded sequences *)

(** The facts about an encoded sequence that the transformers' proofs use:
    the address decodes to a buffer that starts with the sequence. *)
Lemma New_decodes coords a :
  len coords <= 12 -> Forall valid_coord coords -> New coords = Ok a ->
  exists buf,
    Dims a = len coords /\ Coords a = Ok (buf, len coords) /\ len buf = 12 /\
    take (length coords) buf = coords.
Proof.
  intros Hd Hall Ha.
  destruct (New_roundtrip coords Hd Hall)
    as (a' & buf & Ha' & HD & Hc & Hl & Ht & _).
  rewrite Ha in Ha'. injection Ha' as <-. now exists buf.
Qed.

(** [Append] re-encodes the sequence followed by the new coordinates. *)
Lemma Append_New coords a extra :
  len coords <= 12 -> Forall valid_coord coords -> New coords = Ok a ->
  Append a extra = New (coords ++ extra).
Proof.
  intros Hd Hall Ha.
  destruct (New_decodes coords a Hd Hall Ha) as (buf & HD & Hc & Hl & Ht).
  pose proof (len_nonneg coords) as H0. pose proof (len_nonneg extra) as H1.
  unfold Append. rewrite Hc. cbn [bind].
  rewrite copy_loop_into; [|lia|rewrite len_make; lia]. cbn [bind]. f_equal.
  replace (Z.to_nat (len coords)) with (length coords) by (unfold len; lia).
  rewrite Ht. unfold make, copy_at.
  replace (Z.to_nat (len coords + len extra))
    with (length coords + length extra)%nat by (unfold len; lia).
  rewrite drop_replicate_add.
  replace (Z.to_nat (len coords)) with (length coords) by (unfold len; lia).
  rewrite take_app_length, length_app, length_replicate.
  replace (length coords + length extra - length coords)%nat
    with (length extra) by lia.
  rewrite firstn_all, drop_ge by (rewrite length_app, length_replicate; lia).
  now rewrite app_nil_r.
Qed.

(** [Slice] re-encodes the sub-sequence. *)
Lemma Slice_New coords a f t :
  len coords <= 12 -> Forall valid_coord coords -> New coords = Ok a ->
  0 <= f <= t -> t <= len coords ->
  Slice a f t = New (take (Z.to_nat (t - f)) (drop (Z.to_nat f) coords)).
Proof.
  intros Hd Hall Ha Hft Ht.
  destruct (New_decodes coords a Hd Hall Ha) as (buf & HD & Hc & Hl & Htk).
  unfold Slice. rewrite Hc. cbn [bind].
  destruct (Z.ltb_spec f 0); [lia|]. destruct (Z.gtb_spec t (len coords)); [lia|].
  destruct (Z.gtb_spec f t); [lia|]. cbn [orb].
  rewrite len_make by lia.
  destruct (for_range_inv
    (fun j c => len c = t - f /\
       forall k, 0 <= k < j -> coord c k = coord buf (f + k))
    (fun i c => let* x := index buf (f + i) in store c i x)
    (t - f) (make (t - f))) as (c & Hcl & Hlen & Hlow).
  - lia.
  - split; [apply len_make; lia|]. intros k Hk. lia.
  - intros j c Hj (Hlen & Hlow). rewrite index_ok by lia. cbn [bind].
    rewrite store_ok by lia. eexists. split; [reflexivity|].
    split; [now rewrite len_insert|]. intros k Hk.
    unfold coord at 1. rewrite nth_insert_Z by lia.
    destruct (Z.eqb_spec k j) as [->|Hne]; [reflexivity|]. apply Hlow. lia.
  - rewrite Hcl. cbn [bind]. f_equal. apply coords_ext.
    + rewrite Hlen. unfold len in *. rewrite length_take, length_drop. lia.
    + intros i Hi. rewrite Hlow by lia.
      rewrite coord_take, coord_drop by lia.
      pose proof (coord_take buf (length coords) (f + i)) as Hct.
      rewrite Htk in Hct. rewrite <- Hct by (unfold len in *; lia).
      f_equal. lia.
Qed.

Lemma Slice_range_panic coords a f t :
  len coords <= 12 -> Forall valid_coord coords -> New coords = Ok a ->
  ~ (0 <= f <= t /\ t <= len coords) ->
  Slice a f t = Panic (SliceOutOfRange f t (len coords)).
Proof.
  intros Hd Hall Ha Hft.
  destruct (New_decodes coords a Hd Hall Ha) as (buf & HD & Hc & Hl & Htk).
  unfold Slice. rewrite Hc. cbn [bind].
  destruct (Z.ltb_spec f 0); cbn [orb]; [reflexivity|].
  destruct (Z.gtb_spec t (len coords)); cbn [orb]; [reflexivity|].
  destruct (Z.gtb_spec f t); [reflexivity|lia].
Qed.

(** The first out-of-range element decides the panic of the validation. *)
Lemma validate_first_bad coords : forall i j v,
  Forall valid_coord (take j coords) -> coords !! j = Some v ->
  v < 0 \/ v > MaxCoordValue ->
  validate i coords = Panic (CoordOutOfRange (i + Z.of_nat j) v MaxCoordValue).
Proof.
  induction coords as [|w rest IH]; intros i j v Hpre Hl Hbad.
  - now rewrite lookup_nil in Hl.
  - destruct j as [|j]; cbn in Hl; cbn [validate].
    + injection Hl as ->. rewrite Z.add_0_r.
      destruct (Z.ltb_spec v 0); cbn [orb]; [reflexivity|].
      destruct (Z.gtb_spec v MaxCoordValue); [reflexivity|lia].
    + cbn in Hpre. apply Forall_cons in Hpre as [Hw Hpre].
      unfold valid_coord in Hw.
      destruct (Z.ltb_spec w 0); [lia|].
      destruct (Z.gtb_spec w MaxCoordValue); [lia|]. cbn [orb].
      rewrite (IH (i + 1) j v Hpre Hl Hbad). do 2 f_equal. lia.
Qed.

Lemma New_first_bad coords j v :
  len coords <= 12 ->
  Forall valid_coord (take j coords) -> coords !! j = Some v ->
  v < 0 \/ v > 1048575 ->
  New coords = Panic (CoordOutOfRange (Z.of_nat j) v 1048575).
Proof.
  intros Hd Hpre Hl Hbad. unfold New, MaxDimensions.
  destruct (Z.gtb_spec (len coords) 12); [lia|].
  now rewrite (validate_first_bad coords 0 j v Hpre Hl Hbad).
Qed.

Lemma New_too_many coords :
  len coords > 12 -> New coords = Panic (TooManyDimensions 12).
Proof.
  intros Hd. unfold New, MaxDimensions.
  destruct (Z.gtb_spec (len coords) 12); [reflexivity|lia].
Qed.

(** ** What any decodable address holds *)

Lemma bits_bound x :
  (forall p, 20 <= p -> Z.testbit x p = false) -> 0 <= x < 2 ^ 20.
Proof.
  intros Hhigh. assert (Hx : x = x mod 2 ^ 20).
  { apply Z.bits_inj'. intros p Hp. destruct (Z.lt_ge_cases p 20).
    - now rewrite Z.mod_pow2_bits_low by lia.
    - rewrite Z.mod_pow2_bits_high by lia. now apply Hhigh. }
  rewrite Hx. apply Z.mod_pos_bound. lia.
Qed.

(** Whatever the bits of the address, the decoder yields coordinates that
    the encoder accepts. *)
Lemma decoded_valid a buf :
  Dims a <= 12 -> Coords a = Ok (buf, Dims a) ->
  len buf = 12 /\ (forall i, valid_coord (coord buf i)) /\
  (forall i, Dims a <= i -> coord buf i = 0) /\
  (forall i p, 0 <= i < 12 -> 0 <= p ->
     Z.testbit (coord buf i) p = decode_bit a i p).
Proof.
  intros Hd Hc. destruct (Coords_decode a Hd) as (buf' & Hc' & Hl & Hbits).
  rewrite Hc in Hc'. injection Hc' as <-.
  split; [assumption|]. split; [|split; [|assumption]].
  - intros i. unfold valid_coord, MaxCoordValue, BitsPerCoord.
    change (Z.shiftl 1 20 - 1) with 1048575.
    destruct (Z.lt_ge_cases i 0) as [Hneg|Hpos].
    { unfold coord. rewrite Z2Nat.nonpos by lia.
      assert (Hb : 0 <= coord buf 0 < 2 ^ 20).
      { apply bits_bound. intros p Hp. rewrite Hbits by lia.
        unfold decode_bit, BitsPerCoord.
        destruct (Z.ltb_spec p 20); [lia|]. now rewrite andb_false_r. }
      unfold coord in Hb. change (Z.to_nat 0) with 0%nat in Hb.
      change (2 ^ 20) with 1048576 in Hb. lia. }
    destruct (Z.lt_ge_cases i 12).
    + assert (Hb : 0 <= coord buf i < 2 ^ 20).
      { apply bits_bound. intros p Hp. rewrite Hbits by lia.
        unfold decode_bit, BitsPerCoord.
        destruct (Z.ltb_spec p 20); [lia|]. now rewrite andb_false_r. }
      change (2 ^ 20) with 1048576 in Hb. lia.
    + unfold coord. rewrite nth_overflow by (unfold len in Hl; lia). lia.
  - intros i Hi. now apply (decode_tail_zero a).
Qed.

Lemma Forall_valid_take buf n :
  (forall i, valid_coord (coord buf i)) -> Forall valid_coord (take n buf).
Proof.
  intros Hall. apply Forall_take, Forall_lookup_2. intros i x Hx.
  specialize (Hall (Z.of_nat i)). unfold coord in Hall.
  now rewrite Nat2Z.id, (nth_lookup_Some _ _ _ _ Hx) in Hall.
Qed.

(** On any decodable address, [Append] encodes the decoded coordinates
    followed by the new ones. *)
Lemma Append_decoded a buf extra :
  Dims a <= 12 -> Coords a = Ok (buf, Dims a) ->
  Append a extra = New (take (Z.to_nat (Dims a)) buf ++ extra).
Proof.
  intros Hd Hc. destruct (decoded_valid a buf Hd Hc) as (Hl & _).
  pose proof (Dims_range a) as Hr. pose proof (len_nonneg extra) as H1.
  unfold Append. rewrite Hc. cbn [bind].
  rewrite copy_loop_into; [|lia|rewrite len_make; lia]. cbn [bind]. apply (f_equal New).
  unfold make, copy_at.
  replace (Z.to_nat (Dims a + len extra))
    with (Z.to_nat (Dims a) + length extra)%nat by (unfold len; lia).
  rewrite drop_replicate_add.
  assert (Hlt : length (take (Z.to_nat (Dims a)) buf) = Z.to_nat (Dims a))
    by (rewrite length_take; unfold len in Hl; lia).
  generalize dependent (take (Z.to_nat (Dims a)) buf). intros pre Hlt.
  generalize dependent (Z.to_nat (Dims a)). intros n Hlt. subst n.
  rewrite take_app_length, length_app, length_replicate.
  replace (length pre + length extra - length pre)%nat
    with (length extra) by lia.
  rewrite firstn_all, drop_ge by (rewrite length_app, length_replicate; lia).
  now rewrite app_nil_r.
Qed.

(** ** Containment and zero test on encoded sequences *)

Lemma Contains_built ca cb a b :
  len ca <= 12 -> Forall valid_coord ca -> New ca = Ok a ->
  len cb <= 12 -> Forall valid_coord cb -> New cb = Ok b ->
  exists r, Contains a b = Ok r /\
    (r = true <->
     len ca <= len cb /\ forall i, 0 <= i < len ca -> coord ca i = coord cb i).
Proof.
  intros Hda Ha HNa Hdb Hb HNb.
  destruct (New_decodes ca a Hda Ha HNa) as (bufa & HDa & Hca & _ & Hta).
  destruct (New_decodes cb b Hdb Hb HNb) as (bufb & HDb & Hcb & _ & Htb).
  destruct (Contains_spec a b) as (bufa' & bufb' & r & Hca' & Hcb' & Hr & Hiff);
    [lia|lia|].
  rewrite HDa, Hca in Hca'. injection Hca' as <-.
  rewrite HDb, Hcb in Hcb'. injection Hcb' as <-.
  rewrite HDa, HDb in Hiff.
  assert (Hea : forall i, 0 <= i < len ca -> coord bufa i = coord ca i).
  { intros i Hi. pose proof (coord_take bufa (length ca) i) as Ht.
    rewrite Hta in Ht. symmetry. apply Ht. unfold len in Hi. lia. }
  assert (Heb : forall i, 0 <= i < len cb -> coord bufb i = coord cb i).
  { intros i Hi. pose proof (coord_take bufb (length cb) i) as Ht.
    rewrite Htb in Ht. symmetry. apply Ht. unfold len in Hi. lia. }
  exists r. split; [assumption|]. rewrite Hiff.
  split; intros [Hle Hall]; (split; [assumption|]);
    intros i Hi; specialize (Hall i Hi).
  - rewrite <- Hea, <- Heb by lia. assumption.
  - rewrite Hea, Heb by lia. assumption.
Qed.

Lemma IsZero_spec a :
  Dims a <= 12 ->
  exists buf r,
    Coords a = Ok (buf, Dims a) /\ IsZero a = Ok r /\
    (r = true <-> forall i, 0 <= i < Dims a -> coord buf i = 0).
Proof.
  intros Hd. destruct (Coords_decode a Hd) as (buf & Hc & Hl & _).
  pose proof (Dims_range a) as Hr.
  destruct (all_range_spec (fun i => coord buf i =? 0)
              (fun i => let* c := index buf i in Ok (c =? 0)) (Dims a))
    as (r & Hres & Hiff); [lia| |].
  - intros j Hj. rewrite index_ok by lia. reflexivity.
  - exists buf, r. unfold IsZero. rewrite Hc. cbn [bind].
    split; [reflexivity|]. split; [assumption|]. rewrite Hiff.
    split; intros Hall i Hi; apply Z.eqb_eq; now apply Hall.
Qed.

(** ** Append *)

(** X1.  Appending valid coordinates to an address built from [coords],
    within the limit of 12, returns the address [New] builds from [coords]
    followed by the new coordinates: the dimension count grows by their
    number and the result decodes to the concatenation. *)
Theorem Append_concatenates coords extra :
  len coords + len extra <= 12 ->
  Forall (fun v => 0 <= v <= 1048575) coords ->
  Forall (fun v => 0 <= v <= 1048575) extra ->
  exists a a' buf,
    New coords = Ok a /\ Append a extra = Ok a' /\
    New (coords ++ extra) = Ok a' /\
    Dims a' = Dims a + len extra /\
    Coords a' = Ok (buf, len coords + len extra) /\
    take (length coords + length extra) buf = coords ++ extra.
Proof.
  intros Hd Hall Hex. pose proof (len_nonneg extra) as H1.
  destruct (New_roundtrip coords ltac:(unfold MaxDimensions; lia) Hall)
    as (a & _ & Ha & HD & _).
  assert (Hd' : len (coords ++ extra) <= MaxDimensions)
    by (rewrite len_app; unfold MaxDimensions; lia).
  assert (Hall' : Forall valid_coord (coords ++ extra))
    by (apply Forall_app; split; assumption).
  destruct (New_roundtrip _ Hd' Hall') as (a' & buf & Ha' & HD' & Hc' & _ & Ht & _).
  exists a, a', buf. rewrite len_app in *. rewrite length_app in Ht.
  split; [assumption|].
  split; [now rewrite (Append_New coords a extra ltac:(lia) Hall Ha)|].
  split; [assumption|]. split; [lia|]. split; assumption.
Qed.

Lemma Append_concatenates_witness :
  exists a a' buf,
    New [1; 2] = Ok a /\ Append a [3; 4; 5] = Ok a' /\
    New ([1; 2] ++ [3; 4; 5]) = Ok a' /\
    Dims a' = Dims a + len [3; 4; 5] /\
    Coords a' = Ok (buf, len [1; 2] + len [3; 4; 5]) /\
    take (length [1; 2] + length [3; 4; 5]) buf = [1; 2] ++ [3; 4; 5].
Proof.
  apply (Append_concatenates [1; 2] [3; 4; 5]).
  - unfold len. cbn. lia.
  - repeat constructor; lia.
  - repeat constructor; lia.
Defined.

(** X2.  Appending past 12 dimensions panics with the dimension-limit
    message, whatever the new coordinates are: the count is checked before
    any coordinate. *)
Theorem Append_over_limit coords extra :
  len coords <= 12 ->
  Forall (fun v => 0 <= v <= 1048575) coords ->
  len coords + len extra > 12 ->
  exists a,
    New coords = Ok a /\ Append a extra = Panic (TooManyDimensions 12).
Proof.
  intros Hd Hall Hover.
  destruct (New_roundtrip coords Hd Hall) as (a & _ & Ha & _).
  exists a. split; [assumption|].
  rewrite (Append_New coords a extra Hd Hall Ha).
  apply New_too_many. rewrite len_app. lia.
Qed.

Lemma Append_over_limit_witness :
  exists a,
    New (replicate 10 0) = Ok a /\
    Append a [1; -2; 3] = Panic (TooManyDimensions 12).
Proof.
  apply (Append_over_limit (replicate 10 0) [1; -2; 3]).
  - unfold len. cbn. lia.
  - repeat constructor; lia.
  - unfold len. cbn. lia.
Defined.

(** X3.  Appending, within the limit, coordinates of which one is out of
    range panics with the coordinate-out-of-range message; the index it
    carries is the position of the first such coordinate in the whole
    sequence, that is, offset by the receiver's dimension count. *)
Theorem Append_rejects_coordinate coords extra j v :
  len coords + len extra <= 12 ->
  Forall (fun v => 0 <= v <= 1048575) coords ->
  Forall (fun v => 0 <= v <= 1048575) (take j extra) ->
  extra !! j = Some v -> v < 0 \/ v > 1048575 ->
  exists a,
    New coords = Ok a /\
    Append a extra
    = Panic (CoordOutOfRange (Dims a + Z.of_nat j) v 1048575).
Proof.
  intros Hd Hall Hpre Hl Hbad. pose proof (len_nonneg extra) as H1.
  destruct (New_roundtrip coords ltac:(unfold MaxDimensions; lia) Hall)
    as (a & _ & Ha & HD & _).
  exists a. split; [assumption|].
  rewrite (Append_New coords a extra ltac:(lia) Hall Ha), HD.
  replace (len coords + Z.of_nat j) with (Z.of_nat (length coords + j))
    by (unfold len; lia).
  apply New_first_bad.
  - rewrite len_app. lia.
  - rewrite take_app_add. apply Forall_app. split; assumption.
  - rewrite lookup_app_r by lia. rewrite <- Hl. f_equal. lia.
  - assumption.
Qed.

Lemma Append_rejects_coordinate_witness :
  exists a,
    New [1; 2] = Ok a /\
    Append a [3; 1048576; -1]
    = Panic (CoordOutOfRange (Dims a + Z.of_nat 1) 1048576 1048575).
Proof.
  apply (Append_rejects_coordinate [1; 2] [3; 1048576; -1] 1 1048576).
  - unfold len. cbn. lia.
  - repeat constructor; lia.
  - repeat constructor; lia.
  - reflexivity.
  - lia.
Defined.

(** ** Slice *)

(** X4.  For an address built from [coords] and [0 <= from <= to <=
    dims], [Slice] returns the address [New] builds from the coordinates at
    positions [from .. to-1]: its dimension count is [to - from] and its
    coordinate [k] is coordinate [from + k] of the receiver. *)
Theorem Slice_subsequence coords f t :
  len coords <= 12 ->
  Forall (fun v => 0 <= v <= 1048575) coords ->
  0 <= f <= t -> t <= len coords ->
  exists a a' buf,
    New coords = Ok a /\ Slice a f t = Ok a' /\
    New (take (Z.to_nat (t - f)) (drop (Z.to_nat f) coords)) = Ok a' /\
    Dims a' = t - f /\ Coords a' = Ok (buf, t - f) /\
    (forall k, 0 <= k < t - f -> coord buf k = coord coords (f + k)).
Proof.
  intros Hd Hall Hft Ht.
  destruct (New_roundtrip coords Hd Hall) as (a & _ & Ha & _).
  set (sub := take (Z.to_nat (t - f)) (drop (Z.to_nat f) coords)).
  assert (Hls : len sub = t - f)
    by (unfold sub, len in *; rewrite length_take, length_drop; lia).
  assert (Hvs : Forall valid_coord sub)
    by (unfold sub; apply Forall_take, Forall_drop; assumption).
  destruct (New_roundtrip sub ltac:(unfold MaxDimensions; lia) Hvs)
    as (a' & buf & Ha' & HD' & Hc' & _ & Htk & _).
  exists a, a', buf. split; [assumption|].
  split; [now rewrite (Slice_New coords a f t Hd Hall Ha Hft Ht)|].
  split; [assumption|]. rewrite Hls in *.
  split; [assumption|]. split; [assumption|]. intros k Hk.
  pose proof (coord_take buf (length sub) k) as Hct. rewrite Htk in Hct.
  rewrite <- Hct by (unfold len in Hls; lia). unfold sub.
  rewrite coord_take, coord_drop by lia. f_equal. lia.
Qed.

Lemma Slice_subsequence_witness :
  exists a a' buf,
    New [10; 20; 30; 40] = Ok a /\ Slice a 1 3 = Ok a' /\
    New (take (Z.to_nat (3 - 1)) (drop (Z.to_nat 1) [10; 20; 30; 40])) = Ok a' /\
    Dims a' = 3 - 1 /\ Coords a' = Ok (buf, 3 - 1) /\
    (forall k, 0 <= k < 3 - 1 -> coord buf k = coord [10; 20; 30; 40] (1 + k)).
Proof.
  apply (Slice_subsequence [10; 20; 30; 40] 1 3).
  - unfold len. cbn. lia.
  - repeat constructor; lia.
  - lia.
  - unfold len. cbn. lia.
Defined.

(** X5.  On an address built by [New], [Slice] returns exactly when [0 <=
    from <= to <= dims] (an empty range included); otherwise it panics with
    the slice-out-of-range message carrying [from], [to] and the dimension
    count. *)
Theorem Slice_range_check coords f t :
  len coords <= 12 ->
  Forall (fun v => 0 <= v <= 1048575) coords ->
  exists a,
    New coords = Ok a /\
    ((exists a', Slice a f t = Ok a') <-> 0 <= f <= t /\ t <= Dims a) /\
    (~ (0 <= f <= t /\ t <= Dims a) ->
     Slice a f t = Panic (SliceOutOfRange f t (Dims a))).
Proof.
  intros Hd Hall.
  destruct (New_roundtrip coords Hd Hall) as (a & _ & Ha & HD & _).
  exists a. split; [assumption|]. rewrite HD. split.
  - split.
    + intros [a' Ha'].
      destruct (Z.le_gt_cases 0 f); destruct (Z.le_gt_cases f t);
        destruct (Z.le_gt_cases t (len coords)); try lia;
        rewrite (Slice_range_panic coords a f t Hd Hall Ha) in Ha' by lia;
        discriminate.
    + intros [Hft Ht].
      rewrite (Slice_New coords a f t Hd Hall Ha Hft Ht).
      set (sub := take (Z.to_nat (t - f)) (drop (Z.to_nat f) coords)).
      assert (Hls : len sub <= MaxDimensions)
        by (unfold sub, len, MaxDimensions in *;
            rewrite length_take, length_drop; lia).
      assert (Hvs : Forall valid_coord sub)
        by (unfold sub; apply Forall_take, Forall_drop; assumption).
      destruct (New_roundtrip sub Hls Hvs) as (a' & _ & Ha' & _). eauto.
  - intros Hbad. now apply Slice_range_panic.
Qed.

Lemma Slice_range_check_witness :
  exists a,
    New [1; 2; 3] = Ok a /\
    ((exists a', Slice a 1 5 = Ok a') <-> 0 <= 1 <= 5 /\ 5 <= Dims a) /\
    (~ (0 <= 1 <= 5 /\ 5 <= Dims a) ->
     Slice a 1 5 = Panic (SliceOutOfRange 1 5 (Dims a))).
Proof.
  apply (Slice_range_check [1; 2; 3] 1 5).
  - unfold len. cbn. lia.
  - repeat constructor; lia.
Defined.

(** ** Single coordinates *)

(** X6.  On every address whose header is at most 12, built by [New] or
    not, [At] returns the decoded coordinate when [0 <= i < dims], and that
    coordinate is in [[0, 1048575]]; otherwise it panics with the
    index-out-of-range message carrying the index and the dimension
    count. *)
Theorem At_checks_index a j :
  Dims a <= 12 ->
  exists buf,
    Coords a = Ok (buf, Dims a) /\
    (0 <= j < Dims a ->
     At a j = Ok (coord buf j) /\ 0 <= coord buf j <= 1048575) /\
    (~ (0 <= j < Dims a) -> At a j = Panic (DimIndexOutOfRange j (Dims a))).
Proof.
  intros Hd. destruct (Coords_decode a Hd) as (buf & Hc & Hl & _).
  destruct (decoded_valid a buf Hd Hc) as (_ & Hval & _).
  exists buf. split; [assumption|].
  rewrite (At_spec a buf j Hc Hl Hd). split.
  - intros Hj. destruct (Z.ltb_spec j 0); [lia|].
    destruct (Z.geb_spec j (Dims a)); [lia|]. split; [reflexivity|].
    exact (Hval j).
  - intros Hj. destruct (Z.ltb_spec j 0); cbn [orb]; [reflexivity|].
    destruct (Z.geb_spec j (Dims a)); [reflexivity|lia].
Qed.

Lemma At_checks_index_witness :
  exists buf,
    Coords (mkAddr 851 0 0 0) = Ok (buf, 3) /\
    (0 <= 5 < 3 ->
     At (mkAddr 851 0 0 0) 5 = Ok (coord buf 5) /\ 0 <= coord buf 5 <= 1048575) /\
    (~ (0 <= 5 < 3) ->
     At (mkAddr 851 0 0 0) 5 = Panic (DimIndexOutOfRange 5 3)).
Proof.
  apply (At_checks_index (mkAddr 851 0 0 0) 5). change (3 <= 12). lia.
Defined.

(** ** Zero test *)

Lemma New_zeros n :
  (n <= 12)%nat -> New (replicate n 0) = Ok (mkAddr (Z.of_nat n) 0 0 0).
Proof.
  intros Hn. do 13 (destruct n as [|n]; [reflexivity|]). lia.
Qed.

Lemma New_inj ca cb a :
  len ca <= 12 -> Forall valid_coord ca -> New ca = Ok a ->
  len cb <= 12 -> Forall valid_coord cb -> New cb = Ok a ->
  ca = cb.
Proof.
  intros Hda Ha HNa Hdb Hb HNb.
  destruct (New_decodes ca a Hda Ha HNa) as (bufa & _ & Hca & _ & Hta).
  destruct (New_decodes cb a Hdb Hb HNb) as (bufb & _ & Hcb & _ & Htb).
  rewrite Hca in Hcb. injection Hcb as -> Hlen.
  rewrite <- Hta, <- Htb. f_equal. unfold len in Hlen. lia.
Qed.

Lemma all_zero_replicate (coords : list Z) :
  Forall (fun v => v = 0) coords <-> coords = replicate (length coords) 0.
Proof.
  split.
  - intros Hall. symmetry. apply replicate_as_Forall. split; [reflexivity|].
    eapply Forall_impl; [exact Hall|]. intros v ->. reflexivity.
  - intros ->. apply Forall_replicate. reflexivity.
Qed.

(** X7.  On an address built from [coords], [IsZero] returns true exactly
    when every coordinate is 0, which is exactly when the address is its
    header alone: the four words [(len coords, 0, 0, 0)].  So the empty
    address is zero, and a zero address of a positive dimension count is not
    the zero value of the type. *)
Theorem IsZero_iff_all_zero coords :
  len coords <= 12 ->
  Forall (fun v => 0 <= v <= 1048575) coords ->
  exists a r,
    New coords = Ok a /\ IsZero a = Ok r /\
    (r = true <-> Forall (fun v => v = 0) coords) /\
    (r = true <-> a = mkAddr (len coords) 0 0 0).
Proof.
  intros Hd Hall.
  destruct (New_roundtrip coords Hd Hall)
    as (a & buf & Ha & HD & Hc & Hl & Ht & _).
  destruct (IsZero_spec a ltac:(lia)) as (buf' & r & Hc' & Hr & Hiff).
  rewrite HD, Hc in Hc'. injection Hc' as <-. rewrite HD in Hiff.
  assert (Hz : r = true <-> Forall (fun v => v = 0) coords).
  { rewrite Hiff, all_zero_replicate. split.
    - intros Hzero. apply coords_ext.
      + unfold len. now rewrite length_replicate.
      + intros i Hi. pose proof (coord_take buf (length coords) i) as Hct.
        rewrite Ht in Hct. rewrite Hct by (unfold len in Hi; lia).
        rewrite Hzero by lia. unfold coord. rewrite nth_lookup.
        rewrite lookup_replicate_2 by (unfold len in Hi; lia). reflexivity.
    - intros Heq i Hi. pose proof (coord_take buf (length coords) i) as Hct.
      rewrite Ht in Hct. rewrite <- Hct by (unfold len in Hi; lia).
      rewrite Heq. unfold coord. rewrite nth_lookup.
      rewrite lookup_replicate_2 by (unfold len in Hi; lia). reflexivity. }
  exists a, r. split; [assumption|]. split; [assumption|].
  split; [exact Hz|]. rewrite Hz, all_zero_replicate.
  assert (Hn : (length coords <= 12)%nat) by (unfold len in Hd; lia).
  pose proof (New_zeros (length coords) Hn) as HNz. fold (len coords) in HNz.
  split.
  - intros Heq. rewrite Heq in Ha. congruence.
  - intros ->. apply (New_inj coords (replicate (length coords) 0)
                        (mkAddr (len coords) 0 0 0)); try assumption.
    + unfold len. rewrite length_replicate. exact Hd.
    + apply Forall_replicate. unfold valid_coord, MaxCoordValue, BitsPerCoord.
      change (Z.shiftl 1 20 - 1) with 1048575. lia.
Qed.

Lemma IsZero_iff_all_zero_witness :
  exists a r,
    New [0; 0; 1] = Ok a /\ IsZero a = Ok r /\
    (r = true <-> Forall (fun v => v = 0) [0; 0; 1]) /\
    (r = true <-> a = mkAddr (len [0; 0; 1]) 0 0 0).
Proof.
  apply (IsZero_iff_all_zero [0; 0; 1]).
  - unfold len. cbn. lia.
  - repeat constructor; lia.
Defined.

(** ** Containment as an order *)

(** X8.  On addresses whose headers are at most 12, built by [New] or not,
    [Contains] is reflexive and transitive. *)
Theorem Contains_preorder a b c :
  Dims a <= 12 -> Dims b <= 12 -> Dims c <= 12 ->
  Contains a a = Ok true /\
  (Contains a b = Ok true -> Contains b c = Ok true ->
   Contains a c = Ok true).
Proof.
  intros Ha Hb Hc. split.
  - destruct (Contains_spec a a Ha Ha) as (b1 & b2 & r & H1 & H2 & Hr & Hiff).
    rewrite H1 in H2. injection H2 as <-. rewrite Hr. f_equal.
    apply Hiff. split; [lia|reflexivity].
  - intros Hab Hbc.
    destruct (Contains_spec a b Ha Hb) as (ba & bb & r1 & Hca & Hcb & Hr1 & Hi1).
    destruct (Contains_spec b c Hb Hc) as (bb' & bc & r2 & Hcb' & Hcc & Hr2 & Hi2).
    destruct (Contains_spec a c Ha Hc) as (ba' & bc' & r3 & Hca' & Hcc' & Hr3 & Hi3).
    rewrite Hcb in Hcb'. injection Hcb' as <-.
    rewrite Hca in Hca'. injection Hca' as <-.
    rewrite Hcc in Hcc'. injection Hcc' as <-.
    rewrite Hr1 in Hab. injection Hab as ->.
    rewrite Hr2 in Hbc. injection Hbc as ->.
    destruct (proj1 Hi1 eq_refl) as [Hle1 Hall1].
    destruct (proj1 Hi2 eq_refl) as [Hle2 Hall2].
    rewrite Hr3. f_equal. apply Hi3. split; [lia|]. intros i Hi.
    rewrite Hall1 by lia. apply Hall2. lia.
Qed.

Lemma Contains_preorder_witness :
  Contains (mkAddr 146 0 0 0) (mkAddr 146 0 0 0) = Ok true /\
  (Contains (mkAddr 146 0 0 0) (mkAddr 851 0 0 0) = Ok true ->
   Contains (mkAddr 851 0 0 0) (mkAddr 851 0 0 0) = Ok true ->
   Contains (mkAddr 146 0 0 0) (mkAddr 851 0 0 0) = Ok true).
Proof.
  apply (Contains_preorder (mkAddr 146 0 0 0) (mkAddr 851 0 0 0)
           (mkAddr 851 0 0 0)).
  - change (2 <= 12). lia.
  - change (3 <= 12). lia.
  - change (3 <= 12). lia.
Defined.

(** X9.  Two addresses built by [New] contain each other exactly when they
    are [Equal]: on built addresses containment is antisymmetric. *)
Theorem Contains_both_ways_iff_Equal ca cb :
  len ca <= 12 -> Forall (fun v => 0 <= v <= 1048575) ca ->
  len cb <= 12 -> Forall (fun v => 0 <= v <= 1048575) cb ->
  exists a b,
    New ca = Ok a /\ New cb = Ok b /\
    (Contains a b = Ok true /\ Contains b a = Ok true <-> Equal a b = true).
Proof.
  intros Hda Ha Hdb Hb.
  destruct (New_roundtrip ca Hda Ha) as (a & _ & HNa & _).
  destruct (New_roundtrip cb Hdb Hb) as (b & _ & HNb & _).
  destruct (Contains_built ca cb a b Hda Ha HNa Hdb Hb HNb) as (r1 & Hr1 & Hi1).
  destruct (Contains_built cb ca b a Hdb Hb HNb Hda Ha HNa) as (r2 & Hr2 & Hi2).
  exists a, b. split; [assumption|]. split; [assumption|].
  rewrite Equal_eq, Hr1, Hr2. split.
  - intros [[= ->] [= ->]].
    destruct (proj1 Hi1 eq_refl) as [Hle1 Hall1].
    destruct (proj1 Hi2 eq_refl) as [Hle2 _].
    assert (ca = cb) as -> by (apply coords_ext; [lia|assumption]).
    congruence.
  - intros <-.
    assert (ca = cb) as -> by exact (New_inj ca cb a Hda Ha HNa Hdb Hb HNb).
    split; f_equal; [apply Hi1|apply Hi2]; (split; [lia|reflexivity]).
Qed.

Lemma Contains_both_ways_iff_Equal_witness :
  exists a b,
    New [1; 2] = Ok a /\ New [1; 2; 3] = Ok b /\
    (Contains a b = Ok true /\ Contains b a = Ok true <-> Equal a b = true).
Proof.
  apply (Contains_both_ways_iff_Equal [1; 2] [1; 2; 3]).
  - unfold len. cbn. lia.
  - repeat constructor; lia.
  - unfold len. cbn. lia.
  - repeat constructor; lia.
Defined.

(** ** How the operations compose *)

(** X10.  An address contains whatever [Append] makes of it, and is not
    contained in it unless nothing was appended. *)
Theorem Contains_Append coords extra :
  len coords + len extra <= 12 ->
  Forall (fun v => 0 <= v <= 1048575) coords ->
  Forall (fun v => 0 <= v <= 1048575) extra ->
  exists a a',
    New coords = Ok a /\ Append a extra = Ok a' /\
    Contains a a' = Ok true /\
    (extra <> [] -> Contains a' a = Ok false).
Proof.
  intros Hd Hall Hex. pose proof (len_nonneg extra) as H1.
  assert (Hdc : len coords <= 12) by lia.
  destruct (New_roundtrip coords Hdc Hall) as (a & _ & Ha & _).
  assert (Hd' : len (coords ++ extra) <= 12) by (rewrite len_app; lia).
  assert (Hall' : Forall valid_coord (coords ++ extra))
    by (apply Forall_app; split; assumption).
  destruct (New_roundtrip _ Hd' Hall') as (a' & _ & Ha' & _).
  destruct (Contains_built coords (coords ++ extra) a a'
              Hdc Hall Ha Hd' Hall' Ha') as (r1 & Hr1 & Hi1).
  destruct (Contains_built (coords ++ extra) coords a' a
              Hd' Hall' Ha' Hdc Hall Ha) as (r2 & Hr2 & Hi2).
  exists a, a'. split; [assumption|].
  split; [now rewrite (Append_New coords a extra Hdc Hall Ha)|]. split.
  - rewrite Hr1. f_equal. apply Hi1. rewrite len_app. split; [lia|].
    intros i Hi. now rewrite coord_app_l.
  - intros Hne. rewrite Hr2. f_equal. destruct r2; [|reflexivity].
    destruct (proj1 Hi2 eq_refl) as [Hle _]. rewrite len_app in Hle.
    destruct extra; [contradiction|]. unfold len in *. cbn in *. lia.
Qed.

Lemma Contains_Append_witness :
  exists a a',
    New [1; 2] = Ok a /\ Append a [3] = Ok a' /\
    Contains a a' = Ok true /\
    ([3] <> [] -> Contains a' a = Ok false).
Proof.
  apply (Contains_Append [1; 2] [3]).
  - unfold len. cbn. lia.
  - repeat constructor; lia.
  - repeat constructor; lia.
Defined.

(** X11.  [Slice] undoes [Append]: slicing the appended address back to the
    receiver's dimension count returns the receiver, and slicing from there
    to the end returns the address of the appended coordinates. *)
Theorem Slice_undoes_Append coords extra :
  len coords + len extra <= 12 ->
  Forall (fun v => 0 <= v <= 1048575) coords ->
  Forall (fun v => 0 <= v <= 1048575) extra ->
  exists a a',
    New coords = Ok a /\ Append a extra = Ok a' /\
    Slice a' 0 (Dims a) = Ok a /\
    Slice a' (Dims a) (Dims a') = New extra.
Proof.
  intros Hd Hall Hex. pose proof (len_nonneg extra) as H1.
  pose proof (len_nonneg coords) as H0.
  assert (Hdc : len coords <= 12) by lia.
  destruct (New_roundtrip coords Hdc Hall) as (a & _ & Ha & HD & _).
  assert (Hd' : len (coords ++ extra) <= 12) by (rewrite len_app; lia).
  assert (Hall' : Forall valid_coord (coords ++ extra))
    by (apply Forall_app; split; assumption).
  destruct (New_roundtrip _ Hd' Hall') as (a' & _ & Ha' & HD' & _).
  exists a, a'. split; [assumption|].
  split; [now rewrite (Append_New coords a extra Hdc Hall Ha)|].
  rewrite HD, HD', len_app. split.
  - rewrite (Slice_New (coords ++ extra) a' 0 (len coords) Hd' Hall' Ha')
      by (rewrite ?len_app; lia).
    rewrite Z.sub_0_r. change (Z.to_nat 0) with 0%nat. rewrite drop_0.
    replace (Z.to_nat (len coords)) with (length coords) by (unfold len; lia).
    now rewrite take_app_length.
  - rewrite (Slice_New (coords ++ extra) a' (len coords)
               (len coords + len extra) Hd' Hall' Ha')
      by (rewrite ?len_app; lia).
    replace (Z.to_nat (len coords)) with (length coords) by (unfold len; lia).
    rewrite drop_app_length.
    replace (Z.to_nat (len coords + len extra - len coords))
      with (length extra) by (unfold len; lia).
    now rewrite firstn_all.
Qed.

Lemma Slice_undoes_Append_witness :
  exists a a',
    New [1; 2] = Ok a /\ Append a [3; 4] = Ok a' /\
    Slice a' 0 (Dims a) = Ok a /\
    Slice a' (Dims a) (Dims a') = New [3; 4].
Proof.
  apply (Slice_undoes_Append [1; 2] [3; 4]).
  - unfold len. cbn. lia.
  - repeat constructor; lia.
  - repeat constructor; lia.
Defined.

(** X12.  On an address built by [New], the transformers that change
    nothing return the receiver itself: appending nothing, slicing the whole
    range, and replacing a coordinate by the value [At] reads there. *)
Theorem transformers_identity coords :
  len coords <= 12 ->
  Forall (fun v => 0 <= v <= 1048575) coords ->
  exists a,
    New coords = Ok a /\
    Append a [] = Ok a /\
    Slice a 0 (Dims a) = Ok a /\
    (forall i, 0 <= i < Dims a ->
       exists v, At a i = Ok v /\ With a i v = Ok a).
Proof.
  intros Hd Hall. pose proof (len_nonneg coords) as H0.
  destruct (New_roundtrip coords Hd Hall) as (a & _ & Ha & HD & _).
  exists a. split; [assumption|]. rewrite HD. split; [|split].
  - rewrite (Append_New coords a [] Hd Hall Ha). now rewrite app_nil_r.
  - rewrite (Slice_New coords a 0 (len coords) Hd Hall Ha) by lia.
    rewrite Z.sub_0_r. change (Z.to_nat 0) with 0%nat. rewrite drop_0.
    replace (Z.to_nat (len coords)) with (length coords) by (unfold len; lia).
    now rewrite firstn_all.
  - intros i Hi. exists (coord coords i).
    split; [now apply At_New|].
    rewrite (With_New coords a i _ Hd Hall Ha Hi).
    rewrite list_insert_id; [assumption|].
    unfold coord. rewrite nth_lookup.
    destruct (lookup_lt_is_Some_2 coords (Z.to_nat i)) as [x ->];
      [unfold len in Hi; lia|reflexivity].
Qed.

Lemma transformers_identity_witness :
  exists a,
    New [7; 8; 9] = Ok a /\
    Append a [] = Ok a /\
    Slice a 0 (Dims a) = Ok a /\
    (forall i, 0 <= i < Dims a ->
       exists v, At a i = Ok v /\ With a i v = Ok a).
Proof.
  apply (transformers_identity [7; 8; 9]).
  - unfold len. cbn. lia.
  - repeat constructor; lia.
Defined.

(** X13.  Appending to an address built by [New] twice is appending the
    concatenation once, whatever the second batch is (a panic of the one is
    the panic of the other). *)
Theorem Append_Append coords x y :
  len coords + len x <= 12 ->
  Forall (fun v => 0 <= v <= 1048575) coords ->
  Forall (fun v => 0 <= v <= 1048575) x ->
  exists a a1,
    New coords = Ok a /\ Append a x = Ok a1 /\
    Append a1 y = Append a (x ++ y).
Proof.
  intros Hd Hall Hx. pose proof (len_nonneg x) as H1.
  assert (Hdc : len coords <= 12) by lia.
  destruct (New_roundtrip coords Hdc Hall) as (a & _ & Ha & _).
  assert (Hd' : len (coords ++ x) <= 12) by (rewrite len_app; lia).
  assert (Hall' : Forall valid_coord (coords ++ x))
    by (apply Forall_app; split; assumption).
  destruct (New_roundtrip _ Hd' Hall') as (a1 & _ & Ha1 & _).
  exists a, a1. split; [assumption|].
  split; [now rewrite (Append_New coords a x Hdc Hall Ha)|].
  rewrite (Append_New (coords ++ x) a1 y Hd' Hall' Ha1).
  rewrite (Append_New coords a (x ++ y) Hdc Hall Ha).
  now rewrite app_assoc.
Qed.

Lemma Append_Append_witness :
  exists a a1,
    New [1] = Ok a /\ Append a [2] = Ok a1 /\
    Append a1 [3; 4] = Append a ([2] ++ [3; 4]).
Proof.
  apply (Append_Append [1] [2] [3; 4]).
  - unfold len. cbn. lia.
  - repeat constructor; lia.
  - repeat constructor; lia.
Defined.

(** ** Replacing coordinates *)

(** X14.  [With] on an in-range index and a value outside [[0, 1048575]]
    panics with the coordinate-out-of-range message of the encoder, carrying
    that index and the value. *)
Theorem With_rejects_value coords i value :
  len coords <= 12 ->
  Forall (fun v => 0 <= v <= 1048575) coords ->
  0 <= i < len coords -> value < 0 \/ value > 1048575 ->
  exists a,
    New coords = Ok a /\
    With a i value = Panic (CoordOutOfRange i value 1048575).
Proof.
  intros Hd Hall Hi Hbad.
  destruct (New_roundtrip coords Hd Hall) as (a & _ & Ha & _).
  exists a. split; [assumption|].
  rewrite (With_New coords a i value Hd Hall Ha Hi).
  replace i with (Z.of_nat (Z.to_nat i)) at 2 by lia.
  apply New_first_bad; [now rewrite len_insert| | |assumption].
  - rewrite take_insert_ge by lia. now apply Forall_take.
  - apply list_lookup_insert_eq. unfold len in Hi. lia.
Qed.

Lemma With_rejects_value_witness :
  exists a,
    New [1; 2; 3] = Ok a /\
    With a 2 (-7) = Panic (CoordOutOfRange 2 (-7) 1048575).
Proof.
  apply (With_rejects_value [1; 2; 3] 2 (-7)).
  - unfold len. cbn. lia.
  - repeat constructor; lia.
  - unfold len. cbn. lia.
  - lia.
Defined.

(** X15.  On an address built by [New], of any positive dimension count,
    replacing the same coordinate twice gives what the last replacement
    alone gives (value or panic), and two valid replacements at different
    indices commute. *)
Theorem With_With coords i v w :
  len coords <= 12 ->
  Forall (fun v => 0 <= v <= 1048575) coords ->
  0 <= i < len coords -> 0 <= v <= 1048575 ->
  exists a a1,
    New coords = Ok a /\ With a i v = Ok a1 /\
    With a1 i w = With a i w /\
    (forall j u, 0 <= j < len coords -> j <> i -> 0 <= u <= 1048575 ->
       exists a2, With a j u = Ok a2 /\ With a1 j u = With a2 i v).
Proof.
  intros Hd Hall Hi Hv.
  destruct (New_roundtrip coords Hd Hall) as (a & _ & Ha & _).
  assert (Hd1 : len (<[Z.to_nat i := v]> coords) <= 12) by now rewrite len_insert.
  assert (Hall1 : Forall valid_coord (<[Z.to_nat i := v]> coords))
    by (apply Forall_insert; assumption).
  destruct (New_roundtrip _ Hd1 Hall1) as (a1 & _ & Ha1 & _).
  exists a, a1. split; [assumption|].
  split; [now rewrite (With_New coords a i v Hd Hall Ha Hi)|]. split.
  - rewrite (With_New _ a1 i w Hd1 Hall1 Ha1) by (rewrite len_insert; lia).
    rewrite (With_New coords a i w Hd Hall Ha Hi).
    now rewrite list_insert_insert_eq.
  - intros j u Hj Hne Hu.
    assert (Hd2 : len (<[Z.to_nat j := u]> coords) <= 12)
      by now rewrite len_insert.
    assert (Hall2 : Forall valid_coord (<[Z.to_nat j := u]> coords))
      by (apply Forall_insert; assumption).
    destruct (New_roundtrip _ Hd2 Hall2) as (a2 & _ & Ha2 & _).
    exists a2. split; [now rewrite (With_New coords a j u Hd Hall Ha Hj)|].
    rewrite (With_New _ a1 j u Hd1 Hall1 Ha1) by (rewrite len_insert; lia).
    rewrite (With_New _ a2 i v Hd2 Hall2 Ha2) by (rewrite len_insert; lia).
    rewrite list_insert_insert_ne by lia. reflexivity.
Qed.

Lemma With_With_witness :
  (exists a a1,
     New [5] = Ok a /\ With a 0 9 = Ok a1 /\
     With a1 0 7 = With a 0 7 /\
     (forall j u, 0 <= j < len [5] -> j <> 0 -> 0 <= u <= 1048575 ->
        exists a2, With a j u = Ok a2 /\ With a1 j u = With a2 0 9)) /\
  (exists a a1,
     New [1; 2; 3] = Ok a /\ With a 0 10 = Ok a1 /\
     With a1 0 (-1) = With a 0 (-1) /\
     (forall j u, 0 <= j < len [1; 2; 3] -> j <> 0 -> 0 <= u <= 1048575 ->
        exists a2, With a j u = Ok a2 /\ With a1 j u = With a2 0 10)).
Proof.
  split.
  - apply (With_With [5] 0 9 7).
    + unfold len. cbn. lia.
    + repeat constructor; lia.
    + unfold len. cbn. lia.
    + lia.
  - apply (With_With [1; 2; 3] 0 10 (-1)).
    + unfold len. cbn. lia.
    + repeat constructor; lia.
    + unfold len. cbn. lia.
    + lia.
Defined.

(** ** The bit layout *)

(** X16.  The bits of an address [New] returns, over the whole 256-bit
    range: offsets 0 to 3 hold the dimension count [d]; offset [4 + p*d + i]
    holds bit [p] of coordinate [i], for [p < 20] and [i < d]; every bit from
    offset [4 + 20*d] on is zero. *)
Theorem New_bit_layout coords a :
  New coords = Ok a ->
  (forall e, 0 <= e < 4 -> addr_bit a e = Z.testbit (len coords) e) /\
  (forall p i, 0 <= p < 20 -> 0 <= i < len coords ->
     addr_bit a (4 + p * len coords + i) = Z.testbit (coord coords i) p) /\
  (forall e, 4 + 20 * len coords <= e < 256 -> addr_bit a e = false).
Proof.
  intros Ha.
  destruct (New_cases coords)
    as [[_ H]|[(_ & j & v & _ & _ & _ & H)|(Hd & Hall & _)]]; try congruence.
  destruct (New_layout coords Hd Hall) as (a' & Ha' & Hlay).
  rewrite Ha in Ha'. injection Ha' as <-.
  pose proof (len_nonneg coords) as H0. split; [|split].
  - intros e He. rewrite Hlay by lia. unfold layout_bit, layout_upto.
    destruct (Z.ltb_spec e 4); [reflexivity|lia].
  - intros p i Hp Hi.
    pose proof (offset_bounds (len coords) p i ltac:(lia) Hp Hi) as Hoff.
    rewrite Hlay by lia. unfold layout_bit, layout_upto, BitsPerCoord.
    destruct (Z.ltb_spec (4 + p * len coords + i) 4); [lia|].
    replace (4 + p * len coords + i - 4) with (p * len coords + i) by lia.
    destruct (linear_div_mod p i (len coords) Hi) as [-> ->].
    destruct (Z.ltb_spec (p * len coords + i) (20 * len coords)); [|nia].
    reflexivity.
  - intros e He. rewrite Hlay by lia. unfold layout_bit, layout_upto, BitsPerCoord.
    destruct (Z.ltb_spec e 4); [lia|].
    destruct (Z.ltb_spec (e - 4) (20 * len coords)); [lia|]. reflexivity.
Qed.

Lemma New_bit_layout_witness :
  (forall e, 0 <= e < 4 ->
     addr_bit (mkAddr 851 0 0 0) e = Z.testbit (len [1; 2; 3]) e) /\
  (forall p i, 0 <= p < 20 -> 0 <= i < len [1; 2; 3] ->
     addr_bit (mkAddr 851 0 0 0) (4 + p * len [1; 2; 3] + i)
     = Z.testbit (coord [1; 2; 3] i) p) /\
  (forall e, 4 + 20 * len [1; 2; 3] <= e < 256 ->
     addr_bit (mkAddr 851 0 0 0) e = false).
Proof. apply (New_bit_layout [1; 2; 3] (mkAddr 851 0 0 0)). reflexivity. Defined.

(** ** Formatting *)

(** X17.  [String] of an address built from [coords] is ["Addr["], the
    coordinates in decimal separated by single spaces, and ["]"]; its
    12-entry buffer always suffices, so it does not panic. *)
Theorem String_renders coords :
  len coords <= 12 ->
  Forall (fun v => 0 <= v <= 1048575) coords ->
  exists a,
    New coords = Ok a /\
    String a = Ok ("Addr[" ++ String.concat " " (map fmt_d coords) ++ "]")%string.
Proof.
  intros Hd Hall.
  destruct (New_roundtrip coords Hd Hall)
    as (a & buf & Ha & HD & Hc & Hl & Ht & _).
  exists a. split; [assumption|].
  destruct (CoordsSlice_spec a (mkSlice zeroBuffer MaxDimensions))
    as (dec & Hc' & _ & _ & Hfits).
  - lia.
  - unfold IntSlice_wf. change (0 <= 12 <= 12). lia.
  - rewrite HD, Hc in Hc'. injection Hc' as <-.
    destruct Hfits as (out & Hout & _ & _ & Hcont & _);
      [cbn [slen]; unfold MaxDimensions; lia|].
    unfold String. rewrite Hout. cbn [bind]. rewrite Hcont, HD.
    replace (Z.to_nat (len coords)) with (length coords) by (unfold len; lia).
    now rewrite Ht.
Qed.

Lemma String_renders_witness :
  exists a,
    New [0; 1048575] = Ok a /\
    String a
    = Ok ("Addr[" ++ String.concat " " (map fmt_d [0; 1048575]) ++ "]")%string.
Proof.
  apply (String_renders [0; 1048575]).
  - unfold len. cbn. lia.
  - repeat constructor; lia.
Defined.

(** ** Decoding into a buffer, range tests *)

(** X18.  [CoordsSlice] of an address built from [coords], into any buffer
    of length at least [len coords], returns a slice that holds exactly
    [coords], whatever the buffer held before. *)
Theorem CoordsSlice_roundtrip coords buf :
  len coords <= 12 ->
  Forall (fun v => 0 <= v <= 1048575) coords ->
  IntSlice_wf buf -> len coords <= slen buf ->
  exists a out,
    New coords = Ok a /\ CoordsSlice a buf = Ok out /\
    slen out = len coords /\ contents out = coords.
Proof.
  intros Hd Hall Hwf Hfit.
  destruct (New_roundtrip coords Hd Hall)
    as (a & dec & Ha & HD & Hc & Hl & Ht & _).
  destruct (CoordsSlice_spec a buf ltac:(unfold MaxDimensions in Hd; lia) Hwf)
    as (dec' & Hc' & _ & _ & Hfits).
  rewrite HD, Hc in Hc'. injection Hc' as <-.
  destruct Hfits as (out & Hout & Hslen & _ & Hcont & _); [lia|].
  exists a, out. split; [assumption|]. split; [assumption|].
  rewrite HD in *. split; [assumption|]. rewrite Hcont.
  replace (Z.to_nat (len coords)) with (length coords) by (unfold len; lia).
  assumption.
Qed.

Lemma CoordsSlice_roundtrip_witness :
  exists a out,
    New [4; 5] = Ok a /\ CoordsSlice a (mkSlice [9; 9; 9] 3) = Ok out /\
    slen out = len [4; 5] /\ contents out = [4; 5].
Proof.
  apply (CoordsSlice_roundtrip [4; 5] (mkSlice [9; 9; 9] 3)).
  - unfold len. cbn. lia.
  - repeat constructor; lia.
  - unfold IntSlice_wf, cap, len. cbn. lia.
  - unfold len. cbn. lia.
Defined.

(** X19.  A list of ranges that are all [(-1, -1)], of any length, the empty
    list included, admits every address whose header is at most 12. *)
Theorem InRange_wildcards a ranges :
  Dims a <= 12 ->
  Forall (fun ran => ran = (-1, -1)) ranges ->
  InRange a ranges = Ok true.
Proof.
  intros Hd Hall.
  destruct (InRange_spec a ranges Hd) as (buf & r & _ & Hr & Hiff).
  rewrite Hr. f_equal. apply Hiff. intros i ran Hi Hl.
  rewrite Forall_lookup in Hall. rewrite (Hall _ _ Hl).
  split; cbn; intros Hne; contradiction.
Qed.

Lemma InRange_wildcards_witness :
  InRange (mkAddr 851 0 0 0) [(-1, -1); (-1, -1); (-1, -1); (-1, -1)] = Ok true.
Proof.
  apply (InRange_wildcards (mkAddr 851 0 0 0)).
  - change (3 <= 12). lia.
  - repeat constructor.
Defined.

(** X20.  Ranges past the dimension count do not matter: on an address
    whose header is at most 12, [InRange] of a list of ranges is [InRange]
    of its first [dims] entries. *)
Theorem InRange_ignores_extra_ranges a ranges :
  Dims a <= 12 ->
  InRange a ranges = InRange a (take (Z.to_nat (Dims a)) ranges).
Proof.
  intros Hd. pose proof (Dims_range a) as Hr.
  destruct (InRange_spec a ranges Hd) as (buf & r1 & Hc & Hr1 & Hi1).
  destruct (InRange_spec a (take (Z.to_nat (Dims a)) ranges) Hd)
    as (buf' & r2 & Hc' & Hr2 & Hi2).
  rewrite Hc in Hc'. injection Hc' as <-. rewrite Hr1, Hr2. f_equal.
  apply eq_true_iff_eq. rewrite Hi1, Hi2. unfold len_ranges.
  split; intros Hall i ran Hi Hl.
  - rewrite length_take in Hi. apply lookup_take_Some in Hl as [Hl _].
    apply Hall; [lia|assumption].
  - apply Hall.
    + rewrite length_take. lia.
    + rewrite lookup_take_lt by lia. assumption.
Qed.

Lemma InRange_ignores_extra_ranges_witness :
  InRange (mkAddr 146 0 0 0) [(1, 1); (0, 5); (7, 7)]
  = InRange (mkAddr 146 0 0 0) (take (Z.to_nat 2) [(1, 1); (0, 5); (7, 7)]).
Proof.
  apply (InRange_ignores_extra_ranges (mkAddr 146 0 0 0)).
  change (2 <= 12). lia.
Defined.

(** ** More on slices *)

(** X21.  A slice of a slice is a slice of the original: the inner bounds
    are offsets from the outer [from]. *)
Theorem Slice_Slice coords f t f' t' :
  len coords <= 12 ->
  Forall (fun v => 0 <= v <= 1048575) coords ->
  0 <= f <= t -> t <= len coords ->
  0 <= f' <= t' -> t' <= t - f ->
  exists a a1,
    New coords = Ok a /\ Slice a f t = Ok a1 /\
    Slice a1 f' t' = Slice a (f + f') (f + t').
Proof.
  intros Hd Hall Hft Ht Hft' Ht'.
  destruct (New_roundtrip coords Hd Hall) as (a & _ & Ha & _).
  set (sub := take (Z.to_nat (t - f)) (drop (Z.to_nat f) coords)).
  assert (Hls : len sub = t - f)
    by (unfold sub, len in *; rewrite length_take, length_drop; lia).
  assert (Hvs : Forall valid_coord sub)
    by (unfold sub; apply Forall_take, Forall_drop; assumption).
  destruct (New_roundtrip sub ltac:(unfold MaxDimensions; lia) Hvs)
    as (a1 & _ & Ha1 & _).
  exists a, a1. split; [assumption|].
  split; [now rewrite (Slice_New coords a f t Hd Hall Ha Hft Ht)|].
  rewrite (Slice_New sub a1 f' t' ltac:(lia) Hvs Ha1 Hft') by lia.
  rewrite (Slice_New coords a (f + f') (f + t') Hd Hall Ha) by lia.
  apply (f_equal New). apply coords_ext.
  - unfold len in *. rewrite !length_take, !length_drop. lia.
  - intros i Hi.
    assert (Hi' : 0 <= i < t' - f')
      by (unfold len in *; rewrite length_take, length_drop in Hi; lia).
    rewrite !coord_take, !coord_drop by lia. unfold sub.
    rewrite coord_take, coord_drop by lia. f_equal. lia.
Qed.

Lemma Slice_Slice_witness :
  exists a a1,
    New [1; 2; 3; 4; 5] = Ok a /\ Slice a 1 5 = Ok a1 /\
    Slice a1 1 3 = Slice a (1 + 1) (1 + 3).
Proof.
  apply (Slice_Slice [1; 2; 3; 4; 5] 1 5 1 3).
  - unfold len. cbn. lia.
  - repeat constructor; lia.
  - lia.
  - unfold len. cbn. lia.
  - lia.
  - lia.
Defined.

(** X22.  Every leading slice of an address built by [New] contains the
    address. *)
Theorem Slice_prefix_Contains coords k :
  len coords <= 12 ->
  Forall (fun v => 0 <= v <= 1048575) coords ->
  0 <= k <= len coords ->
  exists a a1,
    New coords = Ok a /\ Slice a 0 k = Ok a1 /\ Contains a1 a = Ok true.
Proof.
  intros Hd Hall Hk.
  destruct (New_roundtrip coords Hd Hall) as (a & _ & Ha & _).
  set (sub := take (Z.to_nat (k - 0)) (drop (Z.to_nat 0) coords)).
  assert (Hls : len sub = k)
    by (unfold sub, len in *; rewrite length_take, length_drop; lia).
  assert (Hvs : Forall valid_coord sub)
    by (unfold sub; apply Forall_take, Forall_drop; assumption).
  destruct (New_roundtrip sub ltac:(unfold MaxDimensions; lia) Hvs)
    as (a1 & _ & Ha1 & _).
  destruct (Contains_built sub coords a1 a ltac:(lia) Hvs Ha1 Hd Hall Ha)
    as (r & Hr & Hiff).
  exists a, a1. split; [assumption|].
  split; [now rewrite (Slice_New coords a 0 k Hd Hall Ha) by lia|].
  rewrite Hr. f_equal. apply Hiff. split; [lia|]. intros i Hi. unfold sub.
  rewrite coord_take, coord_drop by lia. f_equal.
Qed.

Lemma Slice_prefix_Contains_witness :
  exists a a1,
    New [1; 2; 3] = Ok a /\ Slice a 0 2 = Ok a1 /\ Contains a1 a = Ok true.
Proof.
  apply (Slice_prefix_Contains [1; 2; 3] 2).
  - unfold len. cbn. lia.
  - repeat constructor; lia.
  - unfold len. cbn. lia.
Defined.

(** ** Bit patterns that [New] does not produce *)

(** X23.  On any bit pattern whose header is at most 12, appending nothing
    returns the canonical address of what the pattern decodes to: an address
    of the same dimension count that decodes to the same buffer and that
    appending nothing leaves as it is.  Stray bits outside the payload are
    dropped, as for the pattern with header 1 and bit 60 set. *)
Theorem Append_nothing_canonical a :
  Dims a <= 12 ->
  (exists buf a',
     Coords a = Ok (buf, Dims a) /\ Append a [] = Ok a' /\
     Dims a' = Dims a /\ Coords a' = Ok (buf, Dims a) /\
     Append a' [] = Ok a') /\
  Append (mkAddr (1 + 2 ^ 60) 0 0 0) [] = Ok (mkAddr 1 0 0 0).
Proof.
  intros Hd. split; [|vm_compute; reflexivity].
  pose proof (Dims_range a) as Hr.
  destruct (Coords_decode a Hd) as (buf & Hc & Hl & _).
  destruct (decoded_valid a buf Hd Hc) as (_ & Hval & Hzero & _).
  set (l := take (Z.to_nat (Dims a)) buf).
  assert (Hll : len l = Dims a)
    by (unfold l, len in *; rewrite length_take; lia).
  assert (Hvl : Forall valid_coord l) by (apply Forall_valid_take; assumption).
  destruct (New_roundtrip l ltac:(unfold MaxDimensions; lia) Hvl)
    as (a' & buf' & Ha' & HD' & Hc' & Hl' & Ht' & Hzero').
  exists buf, a'. split; [assumption|].
  split; [rewrite (Append_decoded a buf [] Hd Hc), app_nil_r; exact Ha'|].
  split; [lia|]. split.
  - rewrite Hc', Hll. do 2 f_equal. apply coords_ext; [lia|].
    intros i Hi. destruct (Z.lt_ge_cases i (Dims a)).
    + pose proof (coord_take buf' (length l) i) as Hct. rewrite Ht' in Hct.
      rewrite <- Hct by (unfold len in Hll; lia). unfold l.
      apply coord_take. lia.
    + rewrite Hzero' by lia. symmetry. apply Hzero. lia.
  - rewrite (Append_New l a' [] ltac:(lia) Hvl Ha'), app_nil_r. exact Ha'.
Qed.

Lemma Append_nothing_canonical_witness :
  exists buf a',
    Coords (mkAddr (1 + 2 ^ 60) 0 0 0) = Ok (buf, 1) /\
    Append (mkAddr (1 + 2 ^ 60) 0 0 0) [] = Ok a' /\
    Dims a' = 1 /\ Coords a' = Ok (buf, 1) /\
    Append a' [] = Ok a'.
Proof.
  apply (Append_nothing_canonical (mkAddr (1 + 2 ^ 60) 0 0 0)).
  change (1 <= 12). lia.
Defined.

(** X24.  On a bit pattern whose header holds 13, 14 or 15, every method
    that decodes its receiver stops on the decoder's run-time error,
    whatever its arguments: [At], [IsZero], [InRange], [CoordsSlice] (even
    with a buffer that is too small), [Append], [Slice], [With] and
    [String].  [Contains] returns false without decoding when the argument
    has fewer dimensions, and stops on the same error otherwise, as it does
    when such a pattern is the argument of a decodable receiver. *)
Theorem undecodable_header a :
  13 <= Dims a ->
  exists e,
    Coords a = Panic e /\
    (e = RuntimeIndex 4 4 \/
     exists i, 12 <= i < Dims a /\ e = RuntimeIndex i 12) /\
    (forall j, At a j = Panic e) /\
    IsZero a = Panic e /\
    (forall ranges, InRange a ranges = Panic e) /\
    (forall buf, CoordsSlice a buf = Panic e) /\
    (forall coords, Append a coords = Panic e) /\
    (forall f t, Slice a f t = Panic e) /\
    (forall i v, With a i v = Panic e) /\
    String a = Panic e /\
    (forall b, Dims b < Dims a -> Contains a b = Ok false) /\
    (forall b, Dims a <= Dims b -> Contains a b = Panic e) /\
    (forall b, Dims b <= 12 -> Contains b a = Panic e).
Proof.
  intros Hd. pose proof (Coords_abort a Hd) as Hab.
  destruct (Coords a) as [r|e] eqn:Hc; cbn in Hab; [contradiction|].
  exists e. split; [reflexivity|]. split; [exact Hab|].
  split; [intros j; unfold At; now rewrite Hc|].
  split; [unfold IsZero; now rewrite Hc|].
  split; [intros rs; unfold InRange; now rewrite Hc|].
  split; [intros buf; unfold CoordsSlice; now rewrite Hc|].
  split; [intros cs; unfold Append; now rewrite Hc|].
  split; [intros f t; unfold Slice; now rewrite Hc|].
  split; [intros i v; unfold With; now rewrite Hc|].
  split; [unfold String, CoordsSlice; now rewrite Hc|].
  split; [|split].
  - intros b Hb. unfold Contains.
    destruct (Z.gtb_spec (Dims a) (Dims b)); [reflexivity|lia].
  - intros b Hb. unfold Contains.
    destruct (Z.gtb_spec (Dims a) (Dims b)); [lia|]. now rewrite Hc.
  - intros b Hb. unfold Contains.
    destruct (Z.gtb_spec (Dims b) (Dims a)); [lia|].
    destruct (Coords_decode b Hb) as (bufb & Hcb & _).
    now rewrite Hcb, Hc.
Qed.

Lemma undecodable_header_witness :
  exists e,
    Coords (mkAddr 14 0 0 0) = Panic e /\
    (e = RuntimeIndex 4 4 \/
     exists i, 12 <= i < 14 /\ e = RuntimeIndex i 12) /\
    (forall j, At (mkAddr 14 0 0 0) j = Panic e) /\
    IsZero (mkAddr 14 0 0 0) = Panic e /\
    (forall ranges, InRange (mkAddr 14 0 0 0) ranges = Panic e) /\
    (forall buf, CoordsSlice (mkAddr 14 0 0 0) buf = Panic e) /\
    (forall coords, Append (mkAddr 14 0 0 0) coords = Panic e) /\
    (forall f t, Slice (mkAddr 14 0 0 0) f t = Panic e) /\
    (forall i v, With (mkAddr 14 0 0 0) i v = Panic e) /\
    String (mkAddr 14 0 0 0) = Panic e /\
    (forall b, Dims b < 14 -> Contains (mkAddr 14 0 0 0) b = Ok false) /\
    (forall b, 14 <= Dims b -> Contains (mkAddr 14 0 0 0) b = Panic e) /\
    (forall b, Dims b <= 12 -> Contains b (mkAddr 14 0 0 0) = Panic e).
Proof.
  apply (undecodable_header (mkAddr 14 0 0 0)). change (13 <= 14). lia.
Defined.
